(** * koolstof: the VINDTA logfile tools and the LI-COR time tools

    A shallow embedding of [koolstof/vindta/__init__.py] (the logfile
    parser [read_logfile], the matcher [logfile2dbs] and the blank
    extractor [get_blanks]) and of [koolstof/infrared/io.py]
    ([get_licor_resolution] and [get_licor_samples]).

    Conventions of the embedding.
    - A Python [str] is a [string]; the logfile is taken as ASCII text,
      so that the class [\d] is the ten digits ['0'..'9'].
    - A Python exception is a value of [exn]; a function that may raise
      returns a [result].
    - A NumPy float is an exact rational ([Qc]); [nan] is a separate
      constructor where the code can produce it.  Rounding of binary
      floating point is therefore not represented.
    - The file is handed over as its list of lines, the result of
      [f.read().splitlines()]. *)

From Stdlib Require Import String Ascii List Bool Arith ZArith Lia.
From Stdlib Require Import QArith Qcanon Lqa DecimalString Sorted.
Import ListNotations.

Close Scope Q_scope.
Local Open Scope string_scope.
Local Open Scope list_scope.
Local Open Scope nat_scope.

(** ** Exceptions and results *)

Inductive exn : Type :=
| IndexError
| ValueError
| TypeError
| ZeroDivisionError
| KeyError
| AssertionError (msg : string).

Inductive result (A : Type) : Type :=
| Ok (a : A)
| Raise (e : exn).

Arguments Ok {A} a.
Arguments Raise {A} e.

Definition bind {A B : Type} (r : result A) (k : A -> result B) : result B :=
  match r with
  | Ok a => k a
  | Raise e => Raise e
  end.

Notation "x <- r ;; k" := (bind r (fun x => k))
  (at level 61, r at next level, right associativity).

Definition of_option {A : Type} (e : exn) (o : option A) : result A :=
  match o with
  | Some a => Ok a
  | None => Raise e
  end.

Definition is_ok {A : Type} (r : result A) : bool :=
  match r with
  | Ok _ => true
  | Raise _ => false
  end.

(** [l[k]] for a non-negative index. *)
Definition getitem {A : Type} (l : list A) (k : nat) : result A :=
  of_option IndexError (nth_error l k).

(** [l[-1]]. *)
Definition getlast {A : Type} (l : list A) : result A :=
  of_option IndexError (nth_error (rev l) 0).

(** [map] for a function that may raise: the first exception wins. *)
Fixpoint mapM {A B : Type} (f : A -> result B) (l : list A) : result (list B) :=
  match l with
  | [] => Ok []
  | a :: l' =>
      b <- f a ;;
      bs <- mapM f l' ;;
      Ok (b :: bs)
  end.

(** ** Characters and strings *)

Definition TAB : ascii := "009"%char.
Definition tab : string := String TAB "".

Definition is_digit (c : ascii) : bool :=
  let n := nat_of_ascii c in (48 <=? n) && (n <=? 57).

Definition not_tab (c : ascii) : bool := negb (Ascii.eqb c TAB).

(** The ASCII characters for which [str.isspace] holds. *)
Definition is_space (c : ascii) : bool :=
  let n := nat_of_ascii c in
  ((9 <=? n) && (n <=? 13)) || ((28 <=? n) && (n <=? 32)).

Fixpoint lstrip (s : string) : string :=
  match s with
  | String c s' => if is_space c then lstrip s' else s
  | EmptyString => EmptyString
  end.

Fixpoint rstrip (s : string) : string :=
  match s with
  | String c s' =>
      match rstrip s' with
      | EmptyString => if is_space c then EmptyString else String c EmptyString
      | r => String c r
      end
  | EmptyString => EmptyString
  end.

(** [s.strip()] *)
Definition strip (s : string) : string := rstrip (lstrip s).

(** Every character of [s] is in the class [cls]. *)
Fixpoint all_chars (cls : ascii -> bool) (s : string) : bool :=
  match s with
  | String c s' => cls c && all_chars cls s'
  | EmptyString => true
  end.

(** ['{}'.format(n)] for a non-negative integer. *)
Definition format_nat (n : nat) : string :=
  NilEmpty.string_of_uint (Nat.to_uint n).

(** The value of a string of decimal digits. *)
Fixpoint digits_value (acc : Z) (s : string) : Z :=
  match s with
  | String c s' => digits_value (10 * acc + Z.of_nat (nat_of_ascii c - 48)) s'
  | EmptyString => acc
  end.

(** [float(s)] on a string that matched [\d*]: the empty string is not
    a number. *)
Definition float_of_digits (s : string) : result Qc :=
  match s with
  | EmptyString => Raise ValueError
  | _ => Ok (Q2Qc (inject_Z (digits_value 0 s)))
  end.

(** ** The fragment of regular expressions the parser uses

    Every pattern of [read_logfile] is a sequence of literal text and
    capture groups, each group being an optional literal, an
    alternation of literals, a greedy starred character class or a
    counted character class.  [matches] lists every way the pattern
    matches at the start of the string, in the order in which a
    backtracking matcher tries them; Python's match is the first. *)

Module Re.

Inductive item : Type :=
| Lit (s : string)
| GroupOpt (s : string)
| GroupAlt (alts : list string)
| GroupStar (cls : ascii -> bool)
| GroupRep (cls : ascii -> bool) (n : nat).

Definition pattern : Type := list item.

(** [strip_prefix p s = Some r] when [s = p ++ r]. *)
Fixpoint strip_prefix (p s : string) : option string :=
  match p with
  | EmptyString => Some s
  | String c p' =>
      match s with
      | String d s' => if Ascii.eqb c d then strip_prefix p' s' else None
      | EmptyString => None
      end
  end.

(** The splits [s = a ++ r] with [a] made of [cls] characters, the
    longest [a] first. *)
Fixpoint star_splits (cls : ascii -> bool) (s : string)
  : list (string * string) :=
  match s with
  | String c s' =>
      if cls c
      then map (fun ar => (String c (fst ar), snd ar)) (star_splits cls s')
             ++ [(EmptyString, s)]
      else [(EmptyString, s)]
  | EmptyString => [(EmptyString, EmptyString)]
  end.

(** The split [s = a ++ r] with [a] made of exactly [n] [cls]
    characters. *)
Fixpoint rep_split (cls : ascii -> bool) (n : nat) (s : string)
  : option (string * string) :=
  match n with
  | O => Some (EmptyString, s)
  | S n' =>
      match s with
      | String c s' =>
          if cls c
          then match rep_split cls n' s' with
               | Some (a, r) => Some (String c a, r)
               | None => None
               end
          else None
      | EmptyString => None
      end
  end.

Definition with_group (g : string) (rs : list (list string * string))
  : list (list string * string) :=
  map (fun gr => (g :: fst gr, snd gr)) rs.

(** Every match of the pattern at the start of [s]: the captured
    groups and the unread rest. *)
Fixpoint matches (p : pattern) (s : string) : list (list string * string) :=
  match p with
  | [] => [([], s)]
  | Lit l :: p' =>
      match strip_prefix l s with
      | Some r => matches p' r
      | None => []
      end
  | GroupOpt l :: p' =>
      match strip_prefix l s with
      | Some r => with_group l (matches p' r)
      | None => []
      end ++ with_group EmptyString (matches p' s)
  | GroupAlt alts :: p' =>
      flat_map (fun a =>
                  match strip_prefix a s with
                  | Some r => with_group a (matches p' r)
                  | None => []
                  end) alts
  | GroupStar cls :: p' =>
      flat_map (fun ar => with_group (fst ar) (matches p' (snd ar)))
               (star_splits cls s)
  | GroupRep cls n :: p' =>
      match rep_split cls n s with
      | Some (a, r) => with_group a (matches p' r)
      | None => []
      end
  end.

(** [p.match(s)]: the groups of the match at the start of [s]. *)
Definition rmatch (p : pattern) (s : string) : option (list string) :=
  match matches p s with
  | (gs, _) :: _ => Some gs
  | [] => None
  end.

(** [p.findall(s)[0]]: the groups of the leftmost match in [s]. *)
Fixpoint search (p : pattern) (s : string) : option (list string) :=
  match rmatch p s with
  | Some gs => Some gs
  | None =>
      match s with
      | String _ s' => search p s'
      | EmptyString => None
      end
  end.

Definition findall0 (p : pattern) (s : string) : result (list string) :=
  of_option IndexError (search p s).

(** [p.fullmatch(s)] *)
Definition fullmatch (p : pattern) (s : string) : option (list string) :=
  match filter (fun gr => String.eqb (snd gr) EmptyString) (matches p s) with
  | (gs, _) :: _ => Some gs
  | [] => None
  end.

End Re.

(** ** Numbers *)

Definition Qc_leb (x y : Qc) : bool := Qle_bool x y.
Definition Qc_ltb (x y : Qc) : bool := negb (Qle_bool y x).
Definition Qc_eqb (x y : Qc) : bool := Qeq_bool x y.

Definition Qc_of_nat (n : nat) : Qc := Q2Qc (inject_Z (Z.of_nat n)).
Definition Qc_of_Z (z : Z) : Qc := Q2Qc (inject_Z z).

(** A float that may be [nan]. *)
Inductive npfloat : Type :=
| Fin (q : Qc)
| NaN.

Definition Qc_sum (l : list Qc) : Qc := fold_right Qcplus (Qc_of_nat 0) l.

(** [np.mean]: the mean of no value is [nan] (with a warning, not an
    exception). *)
Definition np_mean (l : list Qc) : npfloat :=
  match l with
  | [] => NaN
  | _ => Fin (Qc_sum l / Qc_of_nat (length l))%Qc
  end.

(** [np.where(mask)[0]]: the positions where [p] holds. *)
Fixpoint np_where_from {A : Type} (p : A -> bool) (i : nat) (l : list A)
  : list nat :=
  match l with
  | [] => []
  | a :: l' =>
      if p a then i :: np_where_from p (S i) l' else np_where_from p (S i) l'
  end.

Definition np_where {A : Type} (p : A -> bool) (l : list A) : list nat :=
  np_where_from p 0 l.

(** [a[mask]] for a boolean array [mask]: the lengths must agree. *)
Fixpoint mask_select {A : Type} (a : list A) (mask : list bool)
  : result (list A) :=
  match a, mask with
  | [], [] => Ok []
  | x :: a', b :: mask' =>
      r <- mask_select a' mask' ;;
      Ok (if b then x :: r else r)
  | _, _ => Raise IndexError
  end.

(** ** Calendar timestamps *)

Record datetime64 : Type := mkDatetime {
  year : nat;
  month : nat;
  day : nat;
  hour : nat;
  minute : nat
}.

Definition datetime_eqb (a b : datetime64) : bool :=
  (year a =? year b) && (month a =? month b) && (day a =? day b)
  && (hour a =? hour b) && (minute a =? minute b).

Definition is_leap (y : nat) : bool :=
  ((y mod 4 =? 0) && negb (y mod 100 =? 0)) || (y mod 400 =? 0).

Definition days_in_month (y m : nat) : nat :=
  match m with
  | 2 => if is_leap y then 29 else 28
  | 4 | 6 | 9 | 11 => 30
  | _ => 31
  end.

Definition nat_of_digits (s : string) : nat := Z.to_nat (digits_value 0 s).

Definition re_iso : Re.pattern :=
  [Re.GroupRep is_digit 4; Re.Lit "-"; Re.GroupRep is_digit 2; Re.Lit "-";
   Re.GroupRep is_digit 2; Re.Lit "T"; Re.GroupRep is_digit 2; Re.Lit ":";
   Re.GroupRep is_digit 2].

(** [np.datetime64(s)] for a string [YYYY-MM-DDTHH:MM]; a date that is
    not in the calendar is a [ValueError]. *)
Definition np_datetime64 (s : string) : result datetime64 :=
  match Re.fullmatch re_iso s with
  | Some [y; m; d; hh; mm] =>
      let dt := mkDatetime (nat_of_digits y) (nat_of_digits m)
                  (nat_of_digits d) (nat_of_digits hh) (nat_of_digits mm) in
      if (1 <=? month dt) && (month dt <=? 12) && (1 <=? day dt)
         && (day dt <=? days_in_month (year dt) (month dt))
         && (hour dt <? 24) && (minute dt <? 60)
      then Ok dt
      else Raise ValueError
  | _ => Raise ValueError
  end.

(** ** koolstof.vindta *)

Module Vindta.

(** The increment table of a run: a dict of three arrays. *)
Record table : Type := mkTable {
  minutes : list Qc;
  counts : list Qc;
  increments : list Qc
}.

(** One row of the DataFrame that [read_logfile] returns. *)
Record run : Type := mkRun {
  logfileline : nat;
  analysisdate : datetime64;
  bottle : string;
  table_of : table;
  totalcounts : Qc;
  runtime : Qc;
  method : string
}.

(** The row [k] of an increment table, when all three arrays have it. *)
Definition table_row (t : table) (k : nat) : option (Qc * Qc * Qc) :=
  match nth_error (minutes t) k, nth_error (counts t) k,
        nth_error (increments t) k with
  | Some m, Some c, Some i => Some (m, c, i)
  | _, _, _ => None
  end.

(** The rows of an increment table, as triples. *)
Definition table_rows (t : table) : list (Qc * Qc * Qc) :=
  combine (combine (minutes t) (counts t)) (increments t).

Definition default_methods : list string := ["3C standard"].

(** [r'|'.join(methods)] read as alternatives; the names are taken
    literally (the default one has no special character), and no name
    at all leaves the empty alternative. *)
Definition method_alternatives (methods : list string) : list string :=
  match methods with
  | [] => [""]
  | _ => methods
  end.

Definition re_method (methods : list string) : Re.pattern :=
  [Re.GroupAlt (method_alternatives methods); Re.Lit ".mth run started "].

Definition re_datetime : Re.pattern :=
  [Re.Lit "started "; Re.GroupRep is_digit 2; Re.Lit "/";
   Re.GroupRep is_digit 2; Re.Lit "/"; Re.GroupRep is_digit 2; Re.Lit "  ";
   Re.GroupRep is_digit 2; Re.Lit ":"; Re.GroupRep is_digit 2].

Definition re_bottle : Re.pattern :=
  [Re.GroupOpt "bottle"; Re.Lit tab; Re.GroupStar not_tab; Re.Lit tab].

Definition re_crm : Re.pattern :=
  [Re.Lit ("CRM" ++ tab); Re.GroupStar not_tab; Re.Lit tab].

Definition re_increments : Re.pattern :=
  [Re.GroupStar is_digit; Re.Lit tab; Re.GroupStar is_digit; Re.Lit tab;
   Re.GroupStar is_digit; Re.Lit tab].

(** The value of [lbot]: the integer it starts as, or a string. *)
Inductive pyobj : Type :=
| PyInt (z : Z)
| PyStr (s : string).

Definition matched {A : Type} (o : option A) : bool :=
  match o with
  | Some _ => true
  | None => false
  end.

(** Lines 63 to 69: the three attempts at a sample name. *)
Definition find_lbot (logf : list string) (i : nat) : result pyobj :=
  let lbot := PyInt 0 in
  nxt <- getitem logf (i + 1) ;;
  if matched (Re.rmatch re_bottle nxt) then
    g <- Re.findall0 re_bottle nxt ;;
    s <- getitem g 1 ;;
    Ok (PyStr s)
  else if matched (Re.rmatch re_crm nxt) then
    g <- Re.findall0 re_crm nxt ;;
    s <- getitem g 0 ;;
    Ok (PyStr s)
  else if String.eqb nxt "other" then
    Ok (PyStr ("other_" ++ format_nat (i + 1)))
  else Ok lbot.

Definition bottle_not_found (i : nat) : string :=
  "Logfile line " ++ format_nat (i + 1) ++ ": bottle name not found!".

(** Lines 63 to 71, the assertion included. *)
Definition sample_name (logf : list string) (i : nat) : result string :=
  lbot <- find_lbot logf i ;;
  match lbot with
  | PyStr s => Ok s
  | PyInt _ => Raise (AssertionError (bottle_not_found i))
  end.

Definition seed_table : table := mkTable [0%Qc] [0%Qc] [0%Qc].

Definition table_append (t : table) (m c inc : Qc) : table :=
  mkTable (minutes t ++ [m]) (counts t ++ [c]) (increments t ++ [inc]).

(** Lines 76 to 81: the loop over the lines from [logf[i+j]] on, which
    are [rest]; it stops at the first line that does not match and has
    no other exit, so the end of the file is an [IndexError]. *)
Fixpoint increments_loop (rest : list string) (jdict : table) (j : nat)
  : result (table * nat) :=
  match rest with
  | [] => Raise IndexError
  | l :: rest' =>
      if matched (Re.rmatch re_increments (strip l)) then
        jinc <- Re.findall0 re_increments (strip l) ;;
        g0 <- getitem jinc 0 ;;
        m <- float_of_digits g0 ;;
        g1 <- getitem jinc 1 ;;
        c <- float_of_digits g1 ;;
        g2 <- getitem jinc 2 ;;
        inc <- float_of_digits g2 ;;
        increments_loop rest' (table_append jdict m c inc) (S j)
      else Ok (jdict, j)
  end.

(** Lines 58 to 60. *)
Definition run_datetime (line : string) : result datetime64 :=
  ldt <- Re.findall0 re_datetime line ;;
  let f k := nth k ldt "" in
  np_datetime64 ("20" ++ f 2 ++ "-" ++ f 0 ++ "-" ++ f 1 ++ "T" ++ f 3
                   ++ ":" ++ f 4).

(** The body of the loop of [read_logfile] for a run-start line
    [logf[i] = line]. *)
Definition parse_run (methods : list string) (logf : list string) (i : nat)
  (line : string) : result run :=
  ms <- Re.findall0 (re_method methods) line ;;
  meth <- getitem ms 0 ;;
  ldt <- run_datetime line ;;
  lbot <- sample_name logf i ;;
  tj <- increments_loop (skipn (i + 4) logf) seed_table 4 ;;
  let jdict := fst tj in
  let j := snd tj in
  tc <- getlast (counts jdict) ;;
  Ok (mkRun i ldt lbot jdict tc (Qc_of_nat (j - 4)) meth).

Definition is_run_start (methods : list string) (line : string) : bool :=
  matched (Re.rmatch (re_method methods) line).

(** [for i, line in enumerate(logf)], from line [i] on. *)
Fixpoint scan (methods : list string) (logf : list string) (i : nat)
  (rest : list string) : result (list run) :=
  match rest with
  | [] => Ok []
  | line :: rest' =>
      if is_run_start methods line then
        r <- parse_run methods logf i line ;;
        rs <- scan methods logf (S i) rest' ;;
        Ok (r :: rs)
      else scan methods logf (S i) rest'
  end.

Definition read_logfile (methods : list string) (logf : list string)
  : result (list run) :=
  scan methods logf 0 logf.

(** The three shapes of the line after a run start that give the name
    [nm] to the run that starts on line [i]. *)
Definition name_shape (i : nat) (nxt nm : string) : Prop :=
  (exists pre rest,
      (pre = "bottle" \/ pre = "")
      /\ nxt = (pre ++ tab ++ nm ++ tab ++ rest)%string
      /\ all_chars not_tab nm = true)
  \/ (exists rest,
         nxt = ("CRM" ++ tab ++ nm ++ tab ++ rest)%string
         /\ all_chars not_tab nm = true)
  \/ (nxt = "other" /\ nm = ("other_" ++ format_nat (i + 1))%string).

(** The runs that start before line [i] all parse. *)
Definition runs_before_parse (methods : list string) (logf : list string)
  (i : nat) : Prop :=
  forall k l,
    k < i -> nth_error logf k = Some l -> is_run_start methods l = true ->
    is_ok (parse_run methods logf k l) = true.

(** A cell of the column [logfile_iloc]: a position, or [np.nan]. *)
Inductive cell : Type :=
| Int (k : Z)
| Nan.

(** One row of the manifest ([dbs]); [name] is its index label,
    [logfile_iloc] is [None] as long as the column does not exist. *)
Record dbs_row : Type := mkDbs {
  name : nat;
  dbs_bottle : string;
  dbs_analysisdate : datetime64;
  logfile_iloc : option cell
}.

Definition set_logfile_iloc (x : dbs_row) (c : cell) : dbs_row :=
  mkDbs (name x) (dbs_bottle x) (dbs_analysisdate x) (Some c).

Definition no_unique_match (x : dbs_row) : string :=
  "More than one (or no) name/date matches found between dbs and "
  ++ "logfile! @ dbs iloc " ++ format_nat (name x).

(** The mask of line 92: same bottle and same date. *)
Definition same_run (x : dbs_row) (r : run) : bool :=
  String.eqb (dbs_bottle x) (bottle r)
  && datetime_eqb (dbs_analysisdate x) (analysisdate r).

Definition _logfile2dbs (x : dbs_row) (logfile : list run) : result cell :=
  if existsb (String.eqb (dbs_bottle x)) (map bottle logfile) then
    let xix := np_where (same_run x) logfile in
    if length xix =? 1 then
      k <- getitem xix 0 ;;
      Ok (Int (Z.of_nat k))
    else Raise (AssertionError (no_unique_match x))
  else Ok Nan.

(** [addfunccols(dbs, _logfile2dbs, logfile)]: the function is applied
    row after row and its result becomes the new column. *)
Definition logfile2dbs (dbs : list dbs_row) (logfile : list run)
  : result (list dbs_row) :=
  mapM (fun x => c <- _logfile2dbs x logfile ;; Ok (set_logfile_iloc x c)) dbs.

(** [logfile.iloc[k]]: a position counts from the end when negative
    and must be in range; [nan] is no position. *)
Definition iloc (logfile : list run) (c : cell) : result run :=
  match c with
  | Nan => Raise TypeError
  | Int k =>
      let n := Z.of_nat (length logfile) in
      if ((- n <=? k) && (k <? n))%Z
      then getitem logfile (Z.to_nat (if (k <? 0)%Z then k + n else k)%Z)
      else Raise IndexError
  end.

Definition _get_blanks (x : dbs_row) (logfile : list run) (usefrom : Qc)
  : result npfloat :=
  match logfile_iloc x with
  | None =>
      Raise (AssertionError "You must first run `ks.vindta.logfile2dbs()`.")
  | Some c =>
      if Qc_ltb 0%Qc usefrom then
        r <- iloc logfile c ;;
        let lft := table_of r in
        let L := map (fun m => Qc_leb usefrom m) (minutes lft) in
        sel <- mask_select (increments lft) L ;;
        Ok (np_mean sel)
      else Raise (AssertionError "`usefrom` must be positive.")
  end.

(** [addfunccols(dbs, _get_blanks, logfile, usefrom)]: each row with
    its [blank_here]. *)
Definition get_blanks (dbs : list dbs_row) (logfile : list run) (usefrom : Qc)
  : result (list (dbs_row * npfloat)) :=
  mapM (fun x => b <- _get_blanks x logfile usefrom ;; Ok (x, b)) dbs.

Definition default_usefrom : Qc := Qc_of_nat 6.

(** The runs of [logfile] that have the bottle and the date of the
    manifest row [x]. *)
Definition matches_run (x : dbs_row) (r : run) : Prop :=
  bottle r = dbs_bottle x /\ analysisdate r = dbs_analysisdate x.

(** Position [k] holds the one run that matches [x]. *)
Definition unique_match (x : dbs_row) (logfile : list run) (k : nat) : Prop :=
  (exists r, nth_error logfile k = Some r /\ matches_run x r)
  /\ forall k' r',
      nth_error logfile k' = Some r' -> matches_run x r' -> k' = k.

(** The three arrays of a table have one length. *)
Definition in_step (t : table) : Prop :=
  length (minutes t) = length (counts t)
  /\ length (counts t) = length (increments t).

(** The [increments] values of the rows whose [minutes] value is at
    least [usefrom]. *)
Definition increments_from (usefrom : Qc) (t : table) : list Qc :=
  map (fun row => snd row)
    (filter (fun row => Qc_leb usefrom (fst (fst row))) (table_rows t)).

Definition arithmetic_mean (vs : list Qc) : Qc :=
  (Qc_sum vs / Qc_of_nat (length vs))%Qc.

(** [s.split(c)] for a separator of one character. *)
Fixpoint split_on (c : ascii) (s : string) : list string :=
  match s with
  | EmptyString => [EmptyString]
  | String d s' =>
      if Ascii.eqb d c then EmptyString :: split_on c s'
      else match split_on c s' with
           | p :: ps => String d p :: ps
           | [] => [String d EmptyString]
           end
  end.

Definition not_slash (c : ascii) : bool := negb (Ascii.eqb c "/").

(** [_dbs_datetime] on the [date] and [time] cells of a manifest row.
    [parse] stands for [np.datetime64], which reads more shapes of
    time than the one of the logfile. *)
Definition _dbs_datetime (parse : string -> result datetime64)
  (date time : string) : result datetime64 :=
  let dspl := split_on "/" date in
  y <- getitem dspl 2 ;;
  m <- getitem dspl 0 ;;
  d <- getitem dspl 1 ;;
  parse ("20" ++ y ++ "-" ++ m ++ "-" ++ d ++ "T" ++ time)%string.

End Vindta.



(** ** koolstof.infrared.io *)

Module Infrared.

(** [Series.unique()]: the distinct values, in order of appearance. *)
Fixpoint unique (l : list Qc) : list Qc :=
  match l with
  | [] => []
  | x :: l' => x :: filter (fun y => negb (Qc_eqb x y)) (unique l')
  end.

(** [a[1:-1]] *)
Definition interior {A : Type} (a : list A) : list A := removelast (tl a).

(** [np.isin(x, vals)] for one element. *)
Definition isin (vals : list Qc) (x : Qc) : bool := existsb (Qc_eqb x) vals.

(** [a[-k:]]: the last [k] elements, all of [a] when [k] is [0] or
    larger than [len(a)]. *)
Definition slice_last {A : Type} (k : nat) (a : list A) : list A :=
  if k =? 0 then a else skipn (length a - k) a.

(** [np.linspace(start, stop, num)]: [num] evenly spaced values, the
    last one set to [stop]. *)
Definition linspace (start stop : Qc) (num : nat) : list Qc :=
  match num with
  | 0 => []
  | 1 => [start]
  | _ =>
      let step := ((stop - start) / Qc_of_nat (num - 1))%Qc in
      map (fun i => (Qc_of_nat i * step + start)%Qc) (seq 0 (num - 1))
        ++ [stop]
  end.

(** [np.tile(a, n)] *)
Definition tile {A : Type} (a : list A) (n : nat) : list A :=
  concat (repeat a n).

(** Lines 63 to 77 of [get_licor_resolution]: the rate in Hz and the
    second fraction of every row. *)
Definition licor_fractions (datenum : list Qc) : result (nat * list Qc) :=
  let ldu := interior (unique datenum) in
  let lda := filter (isin ldu) datenum in
  if length ldu =? 0 then Raise ZeroDivisionError else
  let resolution := length lda / length ldu in
  if resolution =? 0 then Raise ZeroDivisionError else
  let timestep := (Qc_of_nat 1 / Qc_of_nat resolution)%Qc in
  ldu_first <- getitem ldu 0 ;;
  start_iloc <- getitem (np_where (Qc_eqb ldu_first) datenum) 0 ;;
  let second_fractions :=
    linspace (Qc_of_nat 0) (Qc_of_nat 1 - timestep)%Qc resolution in
  let second_fractions_start := slice_last start_iloc second_fractions in
  let second_fractions_middle := tile second_fractions (length ldu) in
  ldu_last <- getlast ldu ;;
  tail_last <- getlast (np_where (Qc_eqb ldu_last) datenum) ;;
  let tail_iloc := tail_last + 1 in
  let tail_length := length datenum - tail_iloc in
  let second_fractions_end := firstn tail_length second_fractions in
  Ok (resolution,
      second_fractions_start ++ second_fractions_middle
        ++ second_fractions_end).

Definition seconds_per_day : Qc := Qc_of_nat (60 * 60 * 24).

(** The new [datenum] column; a column and an array of another length
    do not add. *)
Definition get_licor_resolution (datenum : list Qc) : result (list Qc) :=
  rf <- licor_fractions datenum ;;
  let second_fractions := snd rf in
  if length second_fractions =? length datenum then
    Ok (map (fun df => (fst df + snd df / seconds_per_day)%Qc)
          (combine datenum second_fractions))
  else Raise ValueError.

(** A row of the gas-analyzer table: its numeric timestamp and, once
    segmented, the float column [dbs_ix]. *)
Record licor_row : Type := mkLicor {
  datenum : Qc;
  dbs_ix : npfloat
}.

(** A row of the manifest: its index label and numeric timestamp. *)
Record dbs_row : Type := mkDbs {
  index : Z;
  dbs_datenum : Qc
}.

(** [dbs.loc[label]] *)
Definition loc (dbs : list dbs_row) (label : Z) : result dbs_row :=
  of_option KeyError (find (fun r => Z.eqb (index r) label) dbs).

(** [licor.loc[licor.datenum >= thr, "dbs_ix"] = label] *)
Definition assign_dbs_ix (thr : Qc) (label : Z) (licor : list licor_row)
  : list licor_row :=
  map (fun r =>
         if Qc_leb thr (datenum r)
         then mkLicor (datenum r) (Fin (Qc_of_Z label))
         else r) licor.

(** [for dbs_ix in dbs.index: ...] *)
Fixpoint tag_loop (labels : list Z) (dbs : list dbs_row)
  (licor : list licor_row) : result (list licor_row) :=
  match labels with
  | [] => Ok licor
  | label :: rest =>
      row <- loc dbs label ;;
      tag_loop rest dbs (assign_dbs_ix (dbs_datenum row) label licor)
  end.

Definition isnan (x : npfloat) : bool :=
  match x with
  | NaN => true
  | Fin _ => false
  end.

Definition get_licor_samples (licor : list licor_row) (dbs : list dbs_row)
  : result (list licor_row) :=
  let licor := map (fun r => mkLicor (datenum r) NaN) licor in
  licor <- tag_loop (map index dbs) dbs licor ;;
  Ok (filter (fun r => negb (isnan (dbs_ix r))) licor).

(** The tag of a row at time [t] once the loop has gone through
    [rows], starting from the tag [tag]: a row-wise reading of
    [tag_loop]. *)
Fixpoint tag_after (t : Qc) (rows : list dbs_row) (tag : npfloat) : npfloat :=
  match rows with
  | [] => tag
  | row :: rest =>
      tag_after t rest
        (if Qc_leb (dbs_datenum row) t then Fin (Qc_of_Z (index row)) else tag)
  end.

(** Row [k] is the last row of [rows] whose time [t] has reached. *)
Definition most_recent (t : Qc) (rows : list dbs_row) (k : nat)
  (row : dbs_row) : Prop :=
  nth_error rows k = Some row
  /\ (dbs_datenum row <= t)%Qc
  /\ forall k' row', k < k' -> nth_error rows k' = Some row' ->
                     (t < dbs_datenum row')%Qc.

(** The order of the manifest: ascending numeric timestamps. *)
Definition by_datenum (a b : dbs_row) : Prop :=
  (dbs_datenum a <= dbs_datenum b)%Qc.

(** The first and the last timestamp of a table. *)
Definition first_time (d : list Qc) : Qc := hd 0%Qc d.
Definition last_time (d : list Qc) : Qc := last d 0%Qc.

(** A timestamp strictly between the first and the last one: with the
    table in ascending order, these are the values that [a[1:-1]]
    leaves of the distinct values. *)
Definition is_interior (d : list Qc) (v : Qc) : bool :=
  Qc_ltb (first_time d) v && Qc_ltb v (last_time d).

Definition interior_rows (d : list Qc) : list Qc := filter (is_interior d) d.

(** The rows of the first and of the last timestamp. *)
Definition leading_rows (d : list Qc) : list Qc :=
  filter (Qc_eqb (first_time d)) d.
Definition trailing_rows (d : list Qc) : list Qc :=
  filter (Qc_eqb (last_time d)) d.

(** How many distinct values a column holds. *)
Definition distinct (l : list Qc) : nat := length (nodup Qc_eq_dec l).

(** The fractions [0, 1/rate, ..., (rate-1)/rate]. *)
Definition ideal_fractions (rate : nat) : list Qc :=
  map (fun i => (Qc_of_nat i / Qc_of_nat rate)%Qc) (seq 0 rate).

End Infrared.



(** ** Sample logfiles and manifests *)

Module VindtaExamples.

Import Vindta.
Local Open Scope string_scope.

(** A logfile with one run of two increment lines. *)
Definition logfile_two_increments : list string :=
  [ "session banner";
    "3C standard.mth run started 01/02/19  10:30";
    "bottle" ++ tab ++ "STD1" ++ tab;
    "cell";
    "blank";
    "1" ++ tab ++ "10" ++ tab ++ "5" ++ tab ++ "7";
    "2" ++ tab ++ "30" ++ tab ++ "20" ++ tab ++ "7";
    "end of run" ].

(** A logfile with one run and no increment line. *)
Definition logfile_no_increment : list string :=
  [ "3C standard.mth run started 12/31/20  23:59";
    "CRM" ++ tab ++ "BATCH9" ++ tab;
    "cell";
    "blank";
    "end of run" ].

Definition run_two_increments : run :=
  mkRun 1 (mkDatetime 2019 1 2 10 30) "STD1"
    (mkTable [0%Qc; Qc_of_nat 1; Qc_of_nat 2]
             [0%Qc; Qc_of_nat 10; Qc_of_nat 30]
             [0%Qc; Qc_of_nat 5; Qc_of_nat 20])
    (Qc_of_nat 30) (Qc_of_nat 2) "3C standard".

Definition run_no_increment : run :=
  mkRun 0 (mkDatetime 2020 12 31 23 59) "BATCH9" seed_table
    0%Qc 0%Qc "3C standard".

Definition run_start_line : string :=
  "3C standard.mth run started 01/02/19  10:30".

(** A logfile of 46 lines whose run starts on line 41 and is of type
    [other]: the line [other] is line 42. *)
Definition logfile_other_at_42 : list string :=
  repeat "idle" 41
    ++ [run_start_line; "other"; "cell"; "blank"; "end of run"].

Definition run_other : run :=
  mkRun 41 (mkDatetime 2019 1 2 10 30) "other_42" seed_table
    0%Qc 0%Qc "3C standard".

(** A run whose bottle line has an empty name between its tabs. *)
Definition logfile_empty_name : list string :=
  [run_start_line; tab ++ tab; "cell"; "blank"; "end of run"].

Definition run_empty_name : run :=
  mkRun 0 (mkDatetime 2019 1 2 10 30) "" seed_table 0%Qc 0%Qc "3C standard".

(** A run whose next line has none of the three shapes. *)
Definition logfile_no_name : list string :=
  [run_start_line; "unknown sample"; "cell"; "blank"; "end of run"].

(** A run that starts on the last line of the file. *)
Definition logfile_start_last : list string :=
  ["session banner"; run_start_line].

(** A run whose increment lines go on to the last line of the file. *)
Definition logfile_increments_to_end : list string :=
  [ run_start_line;
    "bottle" ++ tab ++ "STD1" ++ tab;
    "cell";
    "blank";
    "1" ++ tab ++ "10" ++ tab ++ "5" ++ tab ++ "7";
    "2" ++ tab ++ "30" ++ tab ++ "20" ++ tab ++ "7" ].

(** Manifest rows for a logfile that holds [run_two_increments] and
    [run_no_increment]. *)
Definition dbs_std1 : dbs_row :=
  mkDbs 0 "STD1" (mkDatetime 2019 1 2 10 30) None.

Definition dbs_planned : dbs_row :=
  mkDbs 1 "PLANNED" (mkDatetime 2019 1 3 9 0) None.

Definition dbs_other_date : dbs_row :=
  mkDbs 2 "STD1" (mkDatetime 2019 1 2 11 45) None.

Definition two_runs : list run := [run_two_increments; run_no_increment].

(** A run whose table is the one of the cutoff example: [minutes]
    0, 2, ..., 10 and [increments] 0, 1, ..., 5. *)
Definition run_blank : run :=
  mkRun 0 (mkDatetime 2019 1 2 10 30) "STD1"
    (mkTable (map Qc_of_nat [0; 2; 4; 6; 8; 10])
             (map Qc_of_nat [0; 10; 30; 60; 100; 150])
             (map Qc_of_nat [0; 1; 2; 3; 4; 5]))
    (Qc_of_nat 150) (Qc_of_nat 5) "3C standard".

Definition dbs_blank : dbs_row :=
  mkDbs 0 "STD1" (mkDatetime 2019 1 2 10 30) (Some (Int 0)).

(** A run whose second increment line has no counts. *)
Definition logfile_empty_counts : list string :=
  [ run_start_line;
    "bottle" ++ tab ++ "STD1" ++ tab;
    "cell";
    "blank";
    "1" ++ tab ++ "10" ++ tab ++ "5" ++ tab ++ "7";
    "2" ++ tab ++ tab ++ "20" ++ tab ++ "7";
    "end of run" ].

End VindtaExamples.

(** ** Sample gas-analyzer data *)

Module InfraredExamples.

Import Infrared.

(** Gas-analyzer rows at the times 0, 1, ..., 6. *)
Definition licor_seven : list licor_row :=
  map (fun t => mkLicor (Qc_of_nat t) NaN) [0; 1; 2; 3; 4; 5; 6].

(** A manifest with the labels 10, 11 and 12 at the times 2, 4 and 5. *)
Definition dbs_three : list dbs_row :=
  [mkDbs 10 (Qc_of_nat 2); mkDbs 11 (Qc_of_nat 4); mkDbs 12 (Qc_of_nat 5)].

Definition licor_seven_tagged : list licor_row :=
  [ mkLicor (Qc_of_nat 2) (Fin (Qc_of_Z 10));
    mkLicor (Qc_of_nat 3) (Fin (Qc_of_Z 10));
    mkLicor (Qc_of_nat 4) (Fin (Qc_of_Z 11));
    mkLicor (Qc_of_nat 5) (Fin (Qc_of_Z 12));
    mkLicor (Qc_of_nat 6) (Fin (Qc_of_Z 12)) ].

(** A table at 5 Hz: three rows of a first second, two full seconds,
    two rows of a last second. *)
Definition licor_five_hertz : list Qc :=
  map Qc_of_nat [0; 0; 0; 1; 1; 1; 1; 1; 2; 2; 2; 2; 2; 3; 3].

Definition fifths : list Qc :=
  [Q2Qc 0; Q2Qc (1 # 5); Q2Qc (2 # 5); Q2Qc (3 # 5); Q2Qc (4 # 5)].

(** A table with two distinct timestamps only. *)
Definition licor_two_seconds : list Qc := map Qc_of_nat [7; 7; 8; 8; 8].


End InfraredExamples.

(** * General facts *)

Module BaseFacts.

Local Open Scope list_scope.

(** *** Results *)

Lemma bind_ok_inv {A B : Type} (r : result A) (k : A -> result B) (b : B) :
  bind r k = Ok b -> exists a, r = Ok a /\ k a = Ok b.
Proof.
  destruct r as [a|e]; simpl; intros H; [exists a; auto | discriminate].
Qed.

Ltac bind_inv H :=
  let a := fresh "a" in
  let Ha := fresh "Ha" in
  apply bind_ok_inv in H; destruct H as [a [Ha H]].

Lemma getlast_app {A : Type} (l : list A) (x : A) : getlast (l ++ [x]) = Ok x.
Proof. unfold getlast. rewrite rev_app_distr. reflexivity. Qed.

Lemma getlast_ok_inv {A : Type} (l : list A) (x : A) :
  getlast l = Ok x -> exists l', l = l' ++ [x].
Proof.
  unfold getlast. intros H. destruct (rev l) as [|y l'] eqn:E; simpl in H.
  - discriminate.
  - inversion H; subst. exists (rev l').
    rewrite <- (rev_involutive l), E. reflexivity.
Qed.

Lemma getitem_hd {A : Type} (l : list A) (a0 : A) :
  l <> [] -> getitem l 0 = Ok (hd a0 l).
Proof. destruct l; [contradiction|reflexivity]. Qed.

Lemma getlast_last {A : Type} (l : list A) (a0 : A) :
  l <> [] -> getlast l = Ok (last l a0).
Proof.
  intros H. destruct (exists_last H) as [l' [x ->]].
  rewrite last_last. apply getlast_app.
Qed.

Lemma skipn_nth_error {A : Type} (l : list A) (k : nat) (x : A) :
  nth_error l k = Some x -> exists rest, skipn k l = x :: rest.
Proof.
  revert l. induction k as [|k IH]; intros [|y l] H; simpl in *;
    try discriminate.
  - inversion H; subst. eauto.
  - apply IH. exact H.
Qed.

Lemma mapM_ok {A B : Type} (f : A -> result B) (g : A -> B) (l : list A) :
  (forall a, In a l -> f a = Ok (g a)) -> mapM f l = Ok (map g l).
Proof.
  induction l as [|a l IH]; intros H; simpl; [reflexivity|].
  rewrite (H a (or_introl eq_refl)). simpl. rewrite IH; [reflexivity|].
  intros b Hb. apply H. right. exact Hb.
Qed.

Lemma mapM_ok_inv {A B : Type} (f : A -> result B) (l : list A) (bs : list B) :
  mapM f l = Ok bs ->
  length bs = length l
  /\ forall k a, nth_error l k = Some a ->
                 exists b, f a = Ok b /\ nth_error bs k = Some b.
Proof.
  revert bs. induction l as [|a l IH]; intros bs H; simpl in H.
  - inversion H. split; [reflexivity|]. intros [|k] a Hk; discriminate.
  - do 2 bind_inv H. inversion H; subst bs. destruct (IH _ Ha0) as [Hlen Hall].
    split; [simpl; congruence|]. intros [|k] a' Hk; simpl in Hk.
    + inversion Hk; subst a'. exists a0. auto.
    + apply Hall, Hk.
Qed.

Lemma mapM_not_ok {A B : Type} (f : A -> result B) (l : list A) (a : A) :
  In a l -> is_ok (f a) = false -> is_ok (mapM f l) = false.
Proof.
  induction l as [|a0 l IH]; intros Hin Hf; [destruct Hin|]. simpl.
  destruct Hin as [->|Hin].
  - destruct (f a); [discriminate|reflexivity].
  - destruct (f a0); [|reflexivity]. simpl.
    specialize (IH Hin Hf). destruct (mapM f l); [discriminate|reflexivity].
Qed.

Lemma mapM_raise_first {A B : Type} (f : A -> result B) (pre post : list A)
  (a : A) (e : exn) :
  (forall y, In y pre -> is_ok (f y) = true) -> f a = Raise e ->
  mapM f (pre ++ a :: post) = Raise e.
Proof.
  induction pre as [|y pre IH]; intros Hpre Hf; simpl.
  - rewrite Hf. reflexivity.
  - pose proof (Hpre y (or_introl eq_refl)) as Hy.
    destruct (f y); [|discriminate]. simpl. rewrite IH; auto.
    intros z Hz. apply Hpre. right. exact Hz.
Qed.

(** *** Positions and masks *)

Lemma np_where_from_spec {A : Type} (p : A -> bool) (l : list A) :
  forall i k,
    In k (np_where_from p i l)
    <-> exists a, i <= k /\ nth_error l (k - i) = Some a /\ p a = true.
Proof.
  induction l as [|a l IH]; intros i k; simpl.
  - split; [intros []|]. intros [a [_ [H _]]]. destruct (k - i); discriminate.
  - assert (Hrest : In k (np_where_from p (S i) l)
                    <-> exists a0, S i <= k /\ nth_error l (k - S i) = Some a0
                                   /\ p a0 = true) by apply IH.
    split.
    + intros H. destruct (p a) eqn:E.
      * destruct H as [<-|H].
        -- exists a. rewrite Nat.sub_diag. auto.
        -- apply Hrest in H. destruct H as [a0 [Hle [Hn Hp]]].
           exists a0. replace (k - i) with (S (k - S i)) by lia.
           auto with arith.
      * apply Hrest in H. destruct H as [a0 [Hle [Hn Hp]]].
        exists a0. replace (k - i) with (S (k - S i)) by lia. auto with arith.
    + intros [a0 [Hle [Hn Hp]]]. destruct (k - i) as [|d] eqn:Ed.
      * simpl in Hn. inversion Hn; subst a0. rewrite Hp. left. lia.
      * simpl in Hn.
        assert (Hin : In k (np_where_from p (S i) l)).
        { apply Hrest. exists a0. replace (k - S i) with d by lia.
          repeat split; auto. lia. }
        destruct (p a); [right|]; exact Hin.
Qed.

Lemma np_where_spec {A : Type} (p : A -> bool) (l : list A) (k : nat) :
  In k (np_where p l) <-> exists a, nth_error l k = Some a /\ p a = true.
Proof.
  unfold np_where. rewrite np_where_from_spec. rewrite Nat.sub_0_r.
  split; intros [a H]; exists a; intuition auto with arith.
Qed.

Lemma np_where_from_increasing {A : Type} (p : A -> bool) (l : list A) :
  forall i, StronglySorted lt (np_where_from p i l).
Proof.
  induction l as [|a l IH]; intros i; simpl; [constructor|].
  destruct (p a); [|apply IH]. constructor; [apply IH|].
  apply Forall_forall. intros k Hk. apply np_where_from_spec in Hk.
  destruct Hk as [_ [Hle _]]. lia.
Qed.

(** A strictly increasing list all of whose elements are [k] and that
    holds [k] is [[k]]. *)
Lemma increasing_singleton (l : list nat) (k : nat) :
  StronglySorted lt l -> In k l -> (forall k', In k' l -> k' = k) -> l = [k].
Proof.
  intros Hs Hin Hall. destruct l as [|a l]; [destruct Hin|].
  assert (a = k) by (apply Hall; left; reflexivity). subst a.
  destruct l as [|b l]; [reflexivity|].
  assert (b = k) by (apply Hall; right; left; reflexivity). subst b.
  inversion Hs as [|? ? _ Hf]; subst. inversion Hf; subst. lia.
Qed.

Lemma np_where_from_app {A : Type} (p : A -> bool) (X Y : list A) :
  forall i,
    np_where_from p i (X ++ Y)
    = np_where_from p i X ++ np_where_from p (i + length X) Y.
Proof.
  induction X as [|x X IH]; intros i; simpl.
  - rewrite Nat.add_0_r. reflexivity.
  - rewrite IH. replace (S i + length X) with (i + S (length X)) by lia.
    destruct (p x); reflexivity.
Qed.

Lemma np_where_from_none {A : Type} (p : A -> bool) (X : list A) (i : nat) :
  Forall (fun a => p a = false) X -> np_where_from p i X = [].
Proof.
  intros H. revert i. induction H as [|a l Ha _ IH]; intros i; simpl;
    [reflexivity|].
  rewrite Ha. apply IH.
Qed.






(** *** Lists *)

Lemma filter_all {A : Type} (f : A -> bool) (l : list A) :
  Forall (fun a => f a = true) l -> filter f l = l.
Proof.
  induction 1 as [|a l Ha _ IH]; simpl; [reflexivity|].
  rewrite Ha, IH. reflexivity.
Qed.

Lemma filter_none {A : Type} (f : A -> bool) (l : list A) :
  Forall (fun a => f a = false) l -> filter f l = [].
Proof.
  induction 1 as [|a l Ha _ IH]; simpl; [reflexivity|].
  rewrite Ha, IH. reflexivity.
Qed.


Lemma bool_eq_iff (a b : bool) : (a = true <-> b = true) -> a = b.
Proof. destruct a, b; intuition congruence. Qed.

Lemma StronglySorted_filter {A : Type} (R : A -> A -> Prop) (f : A -> bool)
  (l : list A) :
  StronglySorted R l -> StronglySorted R (filter f l).
Proof.
  induction 1 as [|a l Hs IH Hf]; simpl; [constructor|].
  destruct (f a); [|exact IH]. constructor; [exact IH|].
  rewrite Forall_forall in *. intros x Hx. apply filter_In in Hx.
  apply Hf. tauto.
Qed.

Lemma StronglySorted_app_l {A : Type} (R : A -> A -> Prop) (X Y : list A) :
  StronglySorted R (X ++ Y) -> StronglySorted R X.
Proof.
  induction X as [|x X IH]; intros H; [constructor|].
  simpl in H. inversion H as [|? ? Hs Hf]; subst.
  constructor; [apply IH, Hs|]. rewrite Forall_forall in *.
  intros a Ha. apply Hf, in_or_app. left. exact Ha.
Qed.

Lemma StronglySorted_app_r {A : Type} (R : A -> A -> Prop) (X Y : list A) :
  StronglySorted R (X ++ Y) -> StronglySorted R Y.
Proof.
  induction X as [|x X IH]; intros H; [exact H|].
  simpl in H. inversion H; subst. apply IH. assumption.
Qed.

(** *** Rationals *)

Lemma Qc_leb_true (x y : Qc) : Qc_leb x y = true <-> (x <= y)%Qc.
Proof. unfold Qc_leb, Qcle. apply Qle_bool_iff. Qed.

Lemma Qc_leb_false (x y : Qc) : Qc_leb x y = false <-> (y < x)%Qc.
Proof.
  split.
  - intros H. apply Qcnot_le_lt. intros Hle. apply Qc_leb_true in Hle.
    congruence.
  - intros H. destruct (Qc_leb x y) eqn:E; [|reflexivity].
    apply Qc_leb_true in E. exfalso. apply (Qclt_not_le _ _ H E).
Qed.

Lemma Qc_ltb_true (x y : Qc) : Qc_ltb x y = true <-> (x < y)%Qc.
Proof.
  unfold Qc_ltb. rewrite negb_true_iff. apply (Qc_leb_false y x).
Qed.

Lemma Qc_ltb_false (x y : Qc) : Qc_ltb x y = false <-> (y <= x)%Qc.
Proof.
  unfold Qc_ltb. rewrite negb_false_iff. apply (Qc_leb_true y x).
Qed.

Lemma Qc_eqb_eq (x y : Qc) : Qc_eqb x y = true <-> x = y.
Proof.
  unfold Qc_eqb. rewrite Qeq_bool_iff. split.
  - apply Qc_is_canon.
  - intros ->. reflexivity.
Qed.

Lemma Qc_eqb_refl (x : Qc) : Qc_eqb x x = true.
Proof. apply Qc_eqb_eq. reflexivity. Qed.

Lemma Qc_eqb_neq (x y : Qc) : Qc_eqb x y = false <-> x <> y.
Proof.
  split.
  - intros H E. apply Qc_eqb_eq in E. congruence.
  - intros H. destruct (Qc_eqb x y) eqn:E; [|reflexivity].
    apply Qc_eqb_eq in E. contradiction.
Qed.

Lemma Qclt_irrefl (x : Qc) : ~ (x < x)%Qc.
Proof. intros H. apply (Qclt_not_eq _ _ H). reflexivity. Qed.

Lemma Qc_of_nat_S (n : nat) : Qc_of_nat (S n) = (Qc_of_nat n + 1)%Qc.
Proof.
  unfold Qc_of_nat. apply Qc_is_canon.
  unfold Qcplus, Q2Qc. cbn [this]. rewrite !Qred_correct.
  rewrite Nat2Z.inj_succ. unfold Z.succ. rewrite inject_Z_plus. reflexivity.
Qed.

Lemma Qc_of_nat_pos (n : nat) : 0 < n -> Qc_of_nat n <> 0%Qc.
Proof.
  intros Hn E. apply (f_equal this) in E. unfold Qc_of_nat, Q2Qc in E.
  cbn [this] in E.
  assert (H : (inject_Z (Z.of_nat n) == 0)%Q).
  { rewrite <- (Qred_correct (inject_Z (Z.of_nat n))), E. reflexivity. }
  unfold Qeq in H. simpl in H. lia.
Qed.

End BaseFacts.

(** * Properties of [koolstof.vindta] *)

Module VindtaFacts.

Import BaseFacts Vindta VindtaExamples.

(** *** The scan and the increment loop *)

Lemma scan_ok_inv (methods : list string) (logf : list string) :
  forall rest i rs r,
    scan methods logf i rest = Ok rs -> In r rs ->
    exists k line,
      nth_error rest k = Some line /\ is_run_start methods line = true
      /\ parse_run methods logf (i + k) line = Ok r.
Proof.
  induction rest as [|line rest IH]; intros i rs r H Hin; simpl in H.
  - inversion H; subst. destruct Hin.
  - destruct (is_run_start methods line) eqn:Hs.
    + bind_inv H. bind_inv H. inversion H; subst; clear H.
      destruct Hin as [->|Hin].
      * exists 0, line. rewrite Nat.add_0_r. auto.
      * destruct (IH _ _ _ Ha0 Hin) as [k [l [Hk [Hl Hp]]]].
        exists (S k), l. rewrite Nat.add_succ_r. auto.
    + destruct (IH _ _ _ H Hin) as [k [l [Hk [Hl Hp]]]].
      exists (S k), l. rewrite Nat.add_succ_r. auto.
Qed.

Lemma read_logfile_ok_inv (methods : list string) (logf : list string) rs r :
  read_logfile methods logf = Ok rs -> In r rs ->
  exists i line,
    nth_error logf i = Some line /\ is_run_start methods line = true
    /\ parse_run methods logf i line = Ok r.
Proof.
  intros H Hin. destruct (scan_ok_inv _ _ _ _ _ _ H Hin) as [k [l Hk]].
  exists k, l. exact Hk.
Qed.

Lemma increments_loop_grows :
  forall rest t j t' j',
    increments_loop rest t j = Ok (t', j') ->
    exists ms cs incs,
      minutes t' = minutes t ++ ms /\ counts t' = counts t ++ cs
      /\ increments t' = increments t ++ incs
      /\ length ms = length cs /\ length cs = length incs
      /\ j' = j + length ms.
Proof.
  induction rest as [|l rest IH]; intros t j t' j' H; simpl in H.
  - discriminate.
  - destruct (matched (Re.rmatch re_increments (strip l))).
    + do 7 bind_inv H.
      destruct (IH _ _ _ _ H) as [ms [cs [incs [H1 [H2 [H3 [H4 [H5 H6]]]]]]]].
      simpl in H1, H2, H3.
      exists (a1 :: ms), (a3 :: cs), (a5 :: incs).
      rewrite H1, H2, H3, <- !app_assoc. simpl.
      repeat split; try congruence; lia.
    + inversion H; subst.
      exists [], [], []. rewrite !app_nil_r. simpl. repeat split; lia.
Qed.

Lemma parse_run_ok_inv (methods : list string) (logf : list string) i line r :
  parse_run methods logf i line = Ok r ->
  exists dt nm t j tc,
    run_datetime line = Ok dt
    /\ sample_name logf i = Ok nm
    /\ increments_loop (skipn (i + 4) logf) seed_table 4 = Ok (t, j)
    /\ getlast (counts t) = Ok tc
    /\ logfileline r = i /\ analysisdate r = dt /\ bottle r = nm
    /\ table_of r = t /\ totalcounts r = tc
    /\ runtime r = Qc_of_nat (j - 4).
Proof.
  unfold parse_run. intros H. do 6 bind_inv H.
  inversion H; subst; clear H. destruct a3 as [t j]. simpl.
  exists a1, a2, t, j, a4. repeat split; auto.
Qed.

(** The last row of a table whose three arrays have one length. *)
Lemma table_row_last (t : table) (ms cs incs : list Qc) (m c inc : Qc) :
  minutes t = ms ++ [m] -> counts t = cs ++ [c] ->
  increments t = incs ++ [inc] ->
  length ms = length cs -> length cs = length incs ->
  table_row t (length (table_rows t) - 1) = Some (m, c, inc).
Proof.
  intros Hm Hc Hi L1 L2. unfold table_row, table_rows.
  rewrite !length_combine, Hm, Hc, Hi, !length_app. simpl.
  replace (Nat.min (Nat.min (length ms + 1) (length cs + 1))
             (length incs + 1) - 1) with (length ms) by lia.
  assert (E : forall (l : list Qc) x, length l = length ms ->
                nth_error (l ++ [x]) (length ms) = Some x).
  { intros l x Hl. rewrite nth_error_app2 by lia.
    rewrite Hl, Nat.sub_diag. reflexivity. }
  rewrite !E by lia. reflexivity.
Qed.

(** What a parsed run's table looks like: the seed row, then one row
    per increment line, the three arrays in step. *)
Lemma parsed_table_shape (methods : list string) (logf : list string) i line r :
  parse_run methods logf i line = Ok r ->
  exists ms cs incs,
    minutes (table_of r) = Qc_of_nat 0 :: ms
    /\ counts (table_of r) = Qc_of_nat 0 :: cs
    /\ increments (table_of r) = Qc_of_nat 0 :: incs
    /\ length ms = length cs /\ length cs = length incs
    /\ getlast (counts (table_of r)) = Ok (totalcounts r)
    /\ runtime r = Qc_of_nat (length ms).
Proof.
  intros H. apply parse_run_ok_inv in H.
  destruct H
    as [dt [nm [t [j [tc [_ [_ [Hl [Hc [_ [_ [_ [Ht [Htc Hr]]]]]]]]]]]]]].
  apply increments_loop_grows in Hl.
  destruct Hl as [ms [cs [incs [H1 [H2 [H3 [H4 [H5 H6]]]]]]]].
  exists ms, cs, incs. subst. rewrite H1, H2, H3. simpl.
  repeat split; auto.
  - rewrite <- Hc, H2. reflexivity.
  - rewrite Hr. f_equal. lia.
Qed.


Lemma read_two_increments :
  read_logfile default_methods logfile_two_increments
  = Ok [run_two_increments].
Proof. vm_compute. reflexivity. Qed.

Lemma read_no_increment :
  read_logfile default_methods logfile_no_increment = Ok [run_no_increment].
Proof. vm_compute. reflexivity. Qed.

(** C7: in every run that [read_logfile] returns, the first row of the
    increment table is (0, 0, 0), whatever the file holds; and a run
    whose line [i+4] is no increment line has this row and no other. *)
Theorem increment_table_seeded (methods : list string) (logf : list string)
  (rs : list run) (r : run) :
  read_logfile methods logf = Ok rs -> In r rs ->
  table_row (table_of r) 0 = Some (0%Qc, 0%Qc, 0%Qc)
  /\ (forall l,
        nth_error logf (logfileline r + 4) = Some l ->
        Re.rmatch re_increments (strip l) = None ->
        table_rows (table_of r) = [(0%Qc, 0%Qc, 0%Qc)]).
Proof.
  intros H Hin.
  destruct (read_logfile_ok_inv _ _ _ _ H Hin) as [i [line [Hi [Hs Hp]]]].
  split.
  - destruct (parsed_table_shape _ _ _ _ _ Hp)
      as [ms [cs [incs [Hm [Hc [Hinc _]]]]]].
    unfold table_row. rewrite Hm, Hc, Hinc. reflexivity.
  - intros l Hl Hno. apply parse_run_ok_inv in Hp.
    destruct Hp
      as [dt [nm [t [j [tc [_ [_ [Hloop [_ [Hline [_ [_ [Ht _]]]]]]]]]]]]].
    rewrite Hline in Hl. destruct (skipn_nth_error _ _ _ Hl) as [rest Hrest].
    rewrite Hrest in Hloop. simpl in Hloop. rewrite Hno in Hloop.
    simpl in Hloop. inversion Hloop as [[E1 E2]].
    rewrite Ht, <- E1. reflexivity.
Qed.

Lemma increment_table_seeded_witness :
  table_row (table_of run_two_increments) 0 = Some (0%Qc, 0%Qc, 0%Qc)
  /\ table_rows (table_of run_no_increment) = [(0%Qc, 0%Qc, 0%Qc)].
Proof.
  split.
  - apply (increment_table_seeded default_methods logfile_two_increments
             [run_two_increments] run_two_increments).
    + vm_compute. reflexivity.
    + simpl. auto.
  - apply (increment_table_seeded default_methods logfile_no_increment
             [run_no_increment] run_no_increment) with (l := "end of run").
    + vm_compute. reflexivity.
    + simpl. auto.
    + reflexivity.
    + vm_compute. reflexivity.
Defined.

(** C1, as the code has it: the total counts of a returned run are the
    [counts] value of the last row of its increment table. *)
Theorem totalcounts_is_last_counts (methods : list string)
  (logf : list string) (rs : list run) (r : run) :
  read_logfile methods logf = Ok rs -> In r rs ->
  exists m c inc,
    table_row (table_of r) (length (table_rows (table_of r)) - 1)
    = Some (m, c, inc)
    /\ totalcounts r = c.
Proof.
  intros H Hin.
  destruct (read_logfile_ok_inv _ _ _ _ H Hin) as [i [line [Hi [Hs Hp]]]].
  destruct (parsed_table_shape _ _ _ _ _ Hp)
    as [ms [cs [incs [Hm [Hc [Hinc [L1 [L2 [Hlast _]]]]]]]]].
  destruct (getlast_ok_inv _ _ Hlast) as [cs' Hcs'].
  assert (Lc : length cs' = length cs).
  { apply (f_equal (@length Qc)) in Hcs'. rewrite Hc, length_app in Hcs'.
    simpl in Hcs'. lia. }
  destruct (exists_last (l := minutes (table_of r))) as [ms' [m Hms']].
  { rewrite Hm. discriminate. }
  destruct (exists_last (l := increments (table_of r))) as [incs' [inc Hincs']].
  { rewrite Hinc. discriminate. }
  exists m, (totalcounts r), inc. split; [|reflexivity].
  apply table_row_last with (ms := ms') (cs := cs') (incs := incs'); auto.
  - apply (f_equal (@length Qc)) in Hms'. rewrite Hm, length_app in Hms'.
    simpl in Hms'. lia.
  - apply (f_equal (@length Qc)) in Hincs'. rewrite Hinc, length_app in Hincs'.
    simpl in Hincs'. lia.
Qed.

Lemma totalcounts_is_last_counts_witness :
  exists m c inc,
    table_row (table_of run_two_increments)
      (length (table_rows (table_of run_two_increments)) - 1)
    = Some (m, c, inc)
    /\ totalcounts run_two_increments = c.
Proof.
  apply (totalcounts_is_last_counts default_methods logfile_two_increments
           [run_two_increments]).
  - vm_compute. reflexivity.
  - simpl. auto.
Defined.

(** C1, as the claim has it, fails: the run of [logfile_two_increments]
    ends with the row (2, 30, 20) and its total counts are 30, the
    [counts] value, not 20, the [increments] value. *)
Lemma totalcounts_not_last_increments :
  read_logfile default_methods logfile_two_increments
  = Ok [run_two_increments]
  /\ table_row (table_of run_two_increments)
       (length (table_rows (table_of run_two_increments)) - 1)
     = Some (Qc_of_nat 2, Qc_of_nat 30, Qc_of_nat 20)
  /\ totalcounts run_two_increments = Qc_of_nat 30
  /\ totalcounts run_two_increments <> Qc_of_nat 20.
Proof.
  repeat split; try (vm_compute; reflexivity).
  intros H. apply (f_equal this) in H. vm_compute in H. discriminate.
Qed.

(** *** Facts about the patterns *)

Local Open Scope string_scope.

Lemma search_of_rmatch (p : Re.pattern) (s : string) (gs : list string) :
  Re.rmatch p s = Some gs -> Re.search p s = Some gs.
Proof. intros H. destruct s; simpl; rewrite H; reflexivity. Qed.

Lemma findall0_of_rmatch (p : Re.pattern) (s : string) (gs : list string) :
  Re.rmatch p s = Some gs -> Re.findall0 p s = Ok gs.
Proof.
  intros H. unfold Re.findall0. rewrite (search_of_rmatch _ _ _ H).
  reflexivity.
Qed.

Lemma strip_prefix_sound (p s r : string) :
  Re.strip_prefix p s = Some r -> s = p ++ r.
Proof.
  revert s. induction p as [|c p IH]; intros s H; simpl in H.
  - inversion H. reflexivity.
  - destruct s as [|d s]; [discriminate|].
    destruct (Ascii.eqb c d) eqn:E; [|discriminate].
    apply Ascii.eqb_eq in E. subst d. simpl. f_equal. apply IH, H.
Qed.

Lemma strip_prefix_app (p r : string) : Re.strip_prefix p (p ++ r) = Some r.
Proof.
  induction p as [|c p IH]; simpl; [reflexivity|].
  rewrite Ascii.eqb_refl. exact IH.
Qed.

Lemma star_splits_sound (cls : ascii -> bool) (s a r : string) :
  In (a, r) (Re.star_splits cls s) -> s = a ++ r /\ all_chars cls a = true.
Proof.
  revert a r. induction s as [|c s IH]; intros a r H; simpl in H.
  - destruct H as [H|[]]. inversion H. auto.
  - destruct (cls c) eqn:E.
    + apply in_app_or in H. destruct H as [H|[H|[]]].
      * apply in_map_iff in H. destruct H as [[a' r'] [Heq Hin]].
        simpl in Heq. inversion Heq; subst.
        destruct (IH _ _ Hin) as [-> Ha]. simpl. rewrite E, Ha. auto.
      * inversion H. auto.
    + destruct H as [H|[]]. inversion H. auto.
Qed.

(** The greedy split comes first: a run of [cls] characters that ends
    at a character outside [cls]. *)
Lemma star_splits_longest (cls : ascii -> bool) (a : string) (c : ascii)
  (r : string) :
  all_chars cls a = true -> cls c = false ->
  exists others,
    Re.star_splits cls (a ++ String c r) = (a, String c r) :: others.
Proof.
  intros Ha Hc. induction a as [|d a IH]; simpl.
  - rewrite Hc. eauto.
  - simpl in Ha. apply andb_prop in Ha. destruct Ha as [Hd Ha].
    rewrite Hd. destruct (IH Ha) as [others ->]. simpl. eauto.
Qed.

Lemma not_tab_TAB : not_tab TAB = false.
Proof. reflexivity. Qed.

Lemma rmatch_bottle_named (nm rest : string) :
  all_chars not_tab nm = true ->
  Re.rmatch re_bottle ("bottle" ++ tab ++ nm ++ tab ++ rest)
  = Some ["bottle"; nm].
Proof.
  intros Hnm. unfold Re.rmatch, re_bottle.
  destruct (star_splits_longest not_tab nm TAB rest Hnm not_tab_TAB)
    as [others E].
  simpl. simpl in E. rewrite E. simpl. reflexivity.
Qed.

Lemma rmatch_bottle_unnamed (nm rest : string) :
  all_chars not_tab nm = true ->
  Re.rmatch re_bottle (tab ++ nm ++ tab ++ rest) = Some [""; nm].
Proof.
  intros Hnm. unfold Re.rmatch, re_bottle.
  destruct (star_splits_longest not_tab nm TAB rest Hnm not_tab_TAB)
    as [others E].
  simpl. simpl in E. rewrite E. simpl. reflexivity.
Qed.

Lemma rmatch_bottle_crm (s : string) :
  Re.rmatch re_bottle ("CRM" ++ s) = None.
Proof. reflexivity. Qed.

Lemma rmatch_crm_named (nm rest : string) :
  all_chars not_tab nm = true ->
  Re.rmatch re_crm ("CRM" ++ tab ++ nm ++ tab ++ rest) = Some [nm].
Proof.
  intros Hnm. unfold Re.rmatch, re_crm.
  destruct (star_splits_longest not_tab nm TAB rest Hnm not_tab_TAB)
    as [others E].
  simpl. simpl in E. rewrite E. simpl. reflexivity.
Qed.

Lemma in_with_group (g : string) (rs : list (list string * string))
  (gs : list string) (r : string) :
  In (gs, r) (Re.with_group g rs) ->
  exists gs', gs = g :: gs' /\ In (gs', r) rs.
Proof.
  unfold Re.with_group. intros H. apply in_map_iff in H.
  destruct H as [[gs' r'] [Heq Hin]]. simpl in Heq. inversion Heq; subst.
  eauto.
Qed.

Lemma rmatch_in (p : Re.pattern) (s : string) (gs : list string) :
  Re.rmatch p s = Some gs -> exists r, In (gs, r) (Re.matches p s).
Proof.
  unfold Re.rmatch. destruct (Re.matches p s) as [|[g r] l]; intros H.
  - discriminate.
  - inversion H; subst. exists r. left. reflexivity.
Qed.

(** What the tail of the name patterns reads: a tab, a name without
    tab, a tab. *)
Lemma matches_name_tail (s : string) (gs : list string) (r : string) :
  In (gs, r) (Re.matches [Re.Lit tab; Re.GroupStar not_tab; Re.Lit tab] s) ->
  exists nm, gs = [nm] /\ s = tab ++ nm ++ tab ++ r
             /\ all_chars not_tab nm = true.
Proof.
  cbn [Re.matches].
  destruct (Re.strip_prefix tab s) as [s1|] eqn:E1; [|intros []].
  apply strip_prefix_sound in E1. intros H. apply in_flat_map in H.
  destruct H as [[a s2] [Hsp H]]. cbn [fst snd] in H.
  apply in_with_group in H. destruct H as [gs' [-> H]].
  destruct (Re.strip_prefix tab s2) as [s3|] eqn:E3; [|destruct H].
  apply strip_prefix_sound in E3. destruct H as [H|[]]. inversion H; subst.
  apply star_splits_sound in Hsp. destruct Hsp as [-> Ha].
  exists a. auto.
Qed.

Lemma rmatch_bottle_sound (s : string) (gs : list string) :
  Re.rmatch re_bottle s = Some gs ->
  exists pre nm rest,
    gs = [pre; nm] /\ (pre = "bottle" \/ pre = "")
    /\ s = pre ++ tab ++ nm ++ tab ++ rest /\ all_chars not_tab nm = true.
Proof.
  intros H. apply rmatch_in in H. destruct H as [r H].
  unfold re_bottle in H. cbn [Re.matches] in H.
  apply in_app_or in H. destruct H as [H|H].
  - destruct (Re.strip_prefix "bottle" s) as [s1|] eqn:E1; [|destruct H].
    apply strip_prefix_sound in E1.
    apply in_with_group in H. destruct H as [gs' [-> H]].
    apply matches_name_tail in H. destruct H as [nm [-> [-> Hnm]]].
    exists "bottle", nm, r. auto.
  - apply in_with_group in H. destruct H as [gs' [-> H]].
    apply matches_name_tail in H. destruct H as [nm [-> [-> Hnm]]].
    exists "", nm, r. auto.
Qed.

Lemma rmatch_crm_sound (s : string) (gs : list string) :
  Re.rmatch re_crm s = Some gs ->
  exists nm rest,
    gs = [nm] /\ s = "CRM" ++ tab ++ nm ++ tab ++ rest
    /\ all_chars not_tab nm = true.
Proof.
  intros H. apply rmatch_in in H. destruct H as [r H].
  unfold re_crm in H.
  cbn [Re.matches] in H.
  destruct (Re.strip_prefix ("CRM" ++ tab) s) as [s1|] eqn:E1; [|destruct H].
  apply strip_prefix_sound in E1.
  apply in_flat_map in H. destruct H as [[a s2] [Hsp H]]. cbn [fst snd] in H.
  apply in_with_group in H. destruct H as [gs' [-> H]].
  destruct (Re.strip_prefix tab s2) as [s3|] eqn:E3; [|destruct H].
  apply strip_prefix_sound in E3. destruct H as [H|[]]. inversion H; subst.
  apply star_splits_sound in Hsp. destruct Hsp as [-> Ha].
  exists a, r. auto.
Qed.

Lemma rmatch_method_groups (methods : list string) (s : string)
  (gs : list string) :
  Re.rmatch (re_method methods) s = Some gs -> exists m, gs = [m].
Proof.
  intros H. apply rmatch_in in H. destruct H as [r H].
  unfold re_method in H. cbn [Re.matches] in H.
  apply in_flat_map in H. destruct H as [a [_ H]].
  destruct (Re.strip_prefix a s) as [s1|]; [|destruct H].
  apply in_with_group in H. destruct H as [gs' [-> H]].
  destruct (Re.strip_prefix ".mth run started " s1) as [s2|]; [|destruct H].
  destruct H as [H|[]]. inversion H; subst. eauto.
Qed.

(** *** The sample name *)

Lemma sample_name_bottle (logf : list string) (i : nat) (nxt pre nm : string) :
  nth_error logf (i + 1) = Some nxt ->
  Re.rmatch re_bottle nxt = Some [pre; nm] ->
  sample_name logf i = Ok nm.
Proof.
  intros Hn Hm. unfold sample_name, find_lbot, getitem. rewrite Hn. simpl.
  rewrite Hm. simpl. rewrite (findall0_of_rmatch _ _ _ Hm). reflexivity.
Qed.

Lemma sample_name_crm (logf : list string) (i : nat) (nxt nm : string) :
  nth_error logf (i + 1) = Some nxt ->
  Re.rmatch re_bottle nxt = None ->
  Re.rmatch re_crm nxt = Some [nm] ->
  sample_name logf i = Ok nm.
Proof.
  intros Hn Hb Hm. unfold sample_name, find_lbot, getitem. rewrite Hn. simpl.
  rewrite Hb, Hm. simpl. rewrite (findall0_of_rmatch _ _ _ Hm). reflexivity.
Qed.

Lemma sample_name_other (logf : list string) (i : nat) :
  nth_error logf (i + 1) = Some "other" ->
  sample_name logf i = Ok ("other_" ++ format_nat (i + 1)).
Proof.
  intros Hn. unfold sample_name, find_lbot, getitem. rewrite Hn. reflexivity.
Qed.

Lemma sample_name_none (logf : list string) (i : nat) (nxt : string) :
  nth_error logf (i + 1) = Some nxt ->
  Re.rmatch re_bottle nxt = None ->
  Re.rmatch re_crm nxt = None ->
  nxt <> "other" ->
  sample_name logf i = Raise (AssertionError (bottle_not_found i)).
Proof.
  intros Hn Hb Hc Ho. unfold sample_name, find_lbot, getitem. rewrite Hn.
  simpl. rewrite Hb, Hc. simpl.
  destruct (String.eqb nxt "other") eqn:E.
  - apply String.eqb_eq in E. contradiction.
  - reflexivity.
Qed.

Lemma sample_name_no_line (logf : list string) (i : nat) :
  length logf <= i + 1 -> sample_name logf i = Raise IndexError.
Proof.
  intros H. unfold sample_name, find_lbot, getitem.
  apply nth_error_None in H. rewrite H. reflexivity.
Qed.

Lemma sample_name_ok_inv (logf : list string) (i : nat) (nm : string) :
  sample_name logf i = Ok nm ->
  exists nxt, nth_error logf (i + 1) = Some nxt /\ name_shape i nxt nm.
Proof.
  unfold sample_name, find_lbot, getitem. intros H.
  destruct (nth_error logf (i + 1)) as [nxt|] eqn:Hn; simpl in H;
    [|discriminate].
  exists nxt. split; [reflexivity|].
  destruct (Re.rmatch re_bottle nxt) as [gs|] eqn:Hb; simpl in H.
  - destruct (rmatch_bottle_sound _ _ Hb)
      as [pre [nm' [rest [-> [Hp [Hs Ha]]]]]].
    rewrite (findall0_of_rmatch _ _ _ Hb) in H. simpl in H.
    inversion H; subst nm'. left. exists pre, rest. auto.
  - destruct (Re.rmatch re_crm nxt) as [gs|] eqn:Hc; simpl in H.
    + destruct (rmatch_crm_sound _ _ Hc) as [nm' [rest [-> [Hs Ha]]]].
      rewrite (findall0_of_rmatch _ _ _ Hc) in H. simpl in H.
      inversion H; subst nm'. right. left. exists rest. auto.
    + destruct (String.eqb nxt "other") eqn:E; simpl in H.
      * apply String.eqb_eq in E. inversion H. right. right. auto.
      * discriminate.
Qed.

(** *** Where [read_logfile] raises *)

Lemma parse_run_unfold (methods : list string) (logf : list string) (i : nat)
  (line : string) :
  is_run_start methods line = true ->
  exists meth,
    parse_run methods logf i line
    = (ldt <- run_datetime line ;;
       lbot <- sample_name logf i ;;
       tj <- increments_loop (skipn (i + 4) logf) seed_table 4 ;;
       tc <- getlast (counts (fst tj)) ;;
       Ok (mkRun i ldt lbot (fst tj) tc (Qc_of_nat (snd tj - 4)) meth)).
Proof.
  unfold is_run_start. intros H.
  destruct (Re.rmatch (re_method methods) line) as [gs|] eqn:E;
    [|discriminate].
  destruct (rmatch_method_groups _ _ _ E) as [m ->].
  exists m. unfold parse_run. rewrite (findall0_of_rmatch _ _ _ E).
  reflexivity.
Qed.

Lemma scan_raise_first (methods : list string) (logf : list string) :
  forall rest i k line e,
    nth_error rest k = Some line -> is_run_start methods line = true ->
    parse_run methods logf (i + k) line = Raise e ->
    (forall k' l, k' < k -> nth_error rest k' = Some l ->
                  is_run_start methods l = true ->
                  is_ok (parse_run methods logf (i + k') l) = true) ->
    scan methods logf i rest = Raise e.
Proof.
  induction rest as [|l0 rest IH]; intros i k line e Hk Hs Hp Hbefore.
  - destruct k; discriminate.
  - destruct k as [|k]; simpl in Hk.
    + inversion Hk; subst l0. simpl. rewrite Hs.
      rewrite Nat.add_0_r in Hp. rewrite Hp. reflexivity.
    + assert (Hrest : scan methods logf (S i) rest = Raise e).
      { apply IH with (k := k) (line := line); auto.
        - rewrite Nat.add_succ_comm. exact Hp.
        - intros k' l Hlt Hn Hl. rewrite Nat.add_succ_comm.
          apply Hbefore; auto. lia. }
      simpl. destruct (is_run_start methods l0) eqn:Hs0; [|exact Hrest].
      specialize (Hbefore 0 l0 ltac:(lia) eq_refl Hs0).
      rewrite Nat.add_0_r in Hbefore.
      destruct (parse_run methods logf i l0); [|discriminate].
      simpl. rewrite Hrest. reflexivity.
Qed.

Lemma scan_not_ok (methods : list string) (logf : list string) :
  forall rest i k line,
    nth_error rest k = Some line -> is_run_start methods line = true ->
    is_ok (parse_run methods logf (i + k) line) = false ->
    is_ok (scan methods logf i rest) = false.
Proof.
  induction rest as [|l0 rest IH]; intros i k line Hk Hs Hp.
  - destruct k; discriminate.
  - destruct k as [|k]; simpl in Hk.
    + inversion Hk; subst l0. simpl. rewrite Hs.
      rewrite Nat.add_0_r in Hp.
      destruct (parse_run methods logf i line); [discriminate|reflexivity].
    + assert (Hrest : is_ok (scan methods logf (S i) rest) = false).
      { apply IH with (k := k) (line := line); auto.
        rewrite Nat.add_succ_comm. exact Hp. }
      simpl. destruct (is_run_start methods l0); [|exact Hrest].
      destruct (parse_run methods logf i l0); [|reflexivity].
      simpl. destruct (scan methods logf (S i) rest);
        [discriminate|reflexivity].
Qed.

Lemma read_logfile_raise_first (methods : list string) (logf : list string)
  (i : nat) (line : string) (e : exn) :
  nth_error logf i = Some line -> is_run_start methods line = true ->
  parse_run methods logf i line = Raise e ->
  runs_before_parse methods logf i ->
  read_logfile methods logf = Raise e.
Proof.
  intros Hn Hs Hp Hb. unfold read_logfile.
  apply scan_raise_first with (k := i) (line := line); auto.
Qed.

Lemma read_logfile_not_ok (methods : list string) (logf : list string)
  (i : nat) (line : string) :
  nth_error logf i = Some line -> is_run_start methods line = true ->
  is_ok (parse_run methods logf i line) = false ->
  is_ok (read_logfile methods logf) = false.
Proof.
  intros Hn Hs Hp. unfold read_logfile.
  apply scan_not_ok with (k := i) (line := line); auto.
Qed.

(** *** The sample name of a returned run *)

Lemma returned_run_name (methods : list string) (logf : list string)
  (rs : list run) (r : run) :
  read_logfile methods logf = Ok rs -> In r rs ->
  sample_name logf (logfileline r) = Ok (bottle r).
Proof.
  intros H Hin.
  destruct (read_logfile_ok_inv _ _ _ _ H Hin) as [i [line [Hi [Hs Hp]]]].
  apply parse_run_ok_inv in Hp.
  destruct Hp as [dt [nm [t [j [tc [_ [Hn [_ [_ [Hl [_ [Hb _]]]]]]]]]]]].
  rewrite Hl, Hb. exact Hn.
Qed.

(** C3, as the code has it: the name of a returned run comes from the
    line after its run-start line.  A line [bottle<TAB>name<TAB>] (the
    word [bottle] may be missing) gives [name]; a line
    [CRM<TAB>name<TAB>] gives [name]; the line [other] gives [other_]
    followed by the index of that line itself, which is the index of
    the run-start line plus one. *)
Theorem sample_name_derivation (methods : list string) (logf : list string)
  (rs : list run) (r : run) :
  read_logfile methods logf = Ok rs -> In r rs ->
  exists nxt,
    nth_error logf (logfileline r + 1) = Some nxt
    /\ (forall nm rest,
          all_chars not_tab nm = true ->
          nxt = "bottle" ++ tab ++ nm ++ tab ++ rest
          \/ nxt = tab ++ nm ++ tab ++ rest ->
          bottle r = nm)
    /\ (forall nm rest,
          all_chars not_tab nm = true ->
          nxt = "CRM" ++ tab ++ nm ++ tab ++ rest ->
          bottle r = nm)
    /\ (nxt = "other" ->
        bottle r = "other_" ++ format_nat (logfileline r + 1)).
Proof.
  intros H Hin. pose proof (returned_run_name _ _ _ _ H Hin) as Hn.
  destruct (sample_name_ok_inv _ _ _ Hn) as [nxt [Hnxt _]].
  exists nxt. split; [exact Hnxt|]. repeat split.
  - intros nm rest Hnm [E|E]; subst nxt.
    + rewrite (sample_name_bottle _ _ _ "bottle" nm Hnxt) in Hn.
      * inversion Hn. reflexivity.
      * apply rmatch_bottle_named, Hnm.
    + rewrite (sample_name_bottle _ _ _ "" nm Hnxt) in Hn.
      * inversion Hn. reflexivity.
      * apply rmatch_bottle_unnamed, Hnm.
  - intros nm rest Hnm E. subst nxt.
    rewrite (sample_name_crm _ _ _ nm Hnxt) in Hn.
    + inversion Hn. reflexivity.
    + apply rmatch_bottle_crm.
    + apply rmatch_crm_named, Hnm.
  - intros E. subst nxt. rewrite (sample_name_other _ _ Hnxt) in Hn.
    inversion Hn. reflexivity.
Qed.

Lemma read_other_at_42 :
  read_logfile default_methods logfile_other_at_42 = Ok [run_other].
Proof. vm_compute. reflexivity. Qed.

Lemma sample_name_derivation_witness :
  bottle run_two_increments = "STD1"
  /\ bottle run_no_increment = "BATCH9"
  /\ bottle run_other = "other_42".
Proof.
  split; [|split].
  - destruct (sample_name_derivation default_methods logfile_two_increments
                [run_two_increments] run_two_increments)
      as [nxt [Hnxt [Hb _]]].
    + vm_compute. reflexivity.
    + simpl. auto.
    + apply (Hb "STD1" "").
      * reflexivity.
      * left. simpl in Hnxt. inversion Hnxt. reflexivity.
  - destruct (sample_name_derivation default_methods logfile_no_increment
                [run_no_increment] run_no_increment)
      as [nxt [Hnxt [_ [Hc _]]]].
    + vm_compute. reflexivity.
    + simpl. auto.
    + apply (Hc "BATCH9" "").
      * reflexivity.
      * simpl in Hnxt. inversion Hnxt. reflexivity.
  - destruct (sample_name_derivation default_methods logfile_other_at_42
                [run_other] run_other)
      as [nxt [Hnxt [_ [_ Ho]]]].
    + vm_compute. reflexivity.
    + simpl. auto.
    + apply Ho. simpl in Hnxt. inversion Hnxt. reflexivity.
Defined.

(** C3, as the claim has it, fails on its last example: the line
    [other] at index 42 gives the name [other_42], not [other_43]. *)
Lemma other_at_42_is_not_other_43 :
  nth_error logfile_other_at_42 42 = Some "other"
  /\ read_logfile default_methods logfile_other_at_42 = Ok [run_other]
  /\ bottle run_other = "other_42"
  /\ bottle run_other <> "other_43".
Proof.
  repeat split; try (vm_compute; reflexivity). discriminate.
Qed.

(** C4, as the code has it: the name of every returned run is a string
    of one of the three shapes, and the captured name may be empty;
    when the line after a run start has none of the shapes, the
    assertion fails with a message that names line [i + 1] and nothing
    is returned. *)
Theorem sample_name_found_or_fatal (methods : list string)
  (logf : list string) :
  (forall rs r,
      read_logfile methods logf = Ok rs -> In r rs ->
      exists nxt,
        nth_error logf (logfileline r + 1) = Some nxt
        /\ name_shape (logfileline r) nxt (bottle r))
  /\ (forall i line nxt,
         nth_error logf i = Some line -> is_run_start methods line = true ->
         nth_error logf (i + 1) = Some nxt ->
         Re.rmatch re_bottle nxt = None -> Re.rmatch re_crm nxt = None ->
         nxt <> "other" ->
         sample_name logf i = Raise (AssertionError (bottle_not_found i))
         /\ is_ok (read_logfile methods logf) = false
         /\ (runs_before_parse methods logf i ->
             is_ok (run_datetime line) = true ->
             read_logfile methods logf
             = Raise (AssertionError (bottle_not_found i)))).
Proof.
  split.
  - intros rs r H Hin. apply sample_name_ok_inv.
    apply (returned_run_name _ _ _ _ H Hin).
  - intros i line nxt Hi Hs Hn Hb Hc Ho.
    pose proof (sample_name_none _ _ _ Hn Hb Hc Ho) as Hname.
    destruct (parse_run_unfold methods logf i line Hs) as [meth Hp].
    split; [exact Hname|]. split.
    + apply (read_logfile_not_ok _ _ _ _ Hi Hs). rewrite Hp, Hname.
      destruct (run_datetime line); reflexivity.
    + intros Hbefore Hdt.
      apply (read_logfile_raise_first _ _ _ _ _ Hi Hs); [|exact Hbefore].
      rewrite Hp, Hname. destruct (run_datetime line);
        [reflexivity|discriminate].
Qed.

Lemma read_empty_name :
  read_logfile default_methods logfile_empty_name = Ok [run_empty_name].
Proof. vm_compute. reflexivity. Qed.

Lemma sample_name_found_or_fatal_witness :
  (exists nxt,
      nth_error logfile_empty_name 1 = Some nxt
      /\ name_shape 0 nxt (bottle run_empty_name))
  /\ read_logfile default_methods logfile_no_name
     = Raise (AssertionError "Logfile line 1: bottle name not found!").
Proof.
  split.
  - apply (proj1 (sample_name_found_or_fatal default_methods
                    logfile_empty_name) [run_empty_name] run_empty_name).
    + vm_compute. reflexivity.
    + simpl. auto.
  - apply (proj2 (sample_name_found_or_fatal default_methods logfile_no_name)
             0 run_start_line "unknown sample").
    + reflexivity.
    + vm_compute. reflexivity.
    + reflexivity.
    + vm_compute. reflexivity.
    + vm_compute. reflexivity.
    + discriminate.
    + intros k l Hk. lia.
    + vm_compute. reflexivity.
Defined.

(** C4, as the claim has it, fails: the bottle line of
    [logfile_empty_name] is two tabs, and the run is returned with the
    empty string as its name. *)
Lemma returned_name_may_be_empty :
  read_logfile default_methods logfile_empty_name = Ok [run_empty_name]
  /\ bottle run_empty_name = ""
  /\ String.length (bottle run_empty_name) = 0.
Proof. repeat split; vm_compute; reflexivity. Qed.

(** *** The end of the file *)

Lemma increments_loop_ok_inv :
  forall rest t j t' j',
    increments_loop rest t j = Ok (t', j') ->
    exists k l,
      nth_error rest k = Some l
      /\ Re.rmatch re_increments (strip l) = None
      /\ forall k', k' < k ->
           exists l', nth_error rest k' = Some l'
                      /\ matched (Re.rmatch re_increments (strip l')) = true.
Proof.
  induction rest as [|l rest IH]; intros t j t' j' H; simpl in H.
  - discriminate.
  - destruct (Re.rmatch re_increments (strip l)) as [gs|] eqn:E; simpl in H.
    + do 7 bind_inv H. destruct (IH _ _ _ _ H) as [k [l0 [Hk [Hl Hall]]]].
      exists (S k), l0. repeat split; auto.
      intros [|k'] Hlt.
      * exists l. simpl. rewrite E. auto.
      * apply Hall. lia.
    + exists 0, l. repeat split; auto. intros k' Hlt. lia.
Qed.

Lemma increments_loop_all_match :
  forall rest t j,
    (forall l, In l rest ->
               matched (Re.rmatch re_increments (strip l)) = true) ->
    is_ok (increments_loop rest t j) = false.
Proof.
  induction rest as [|l rest IH]; intros t j H; simpl.
  - reflexivity.
  - rewrite (H l (or_introl eq_refl)).
    destruct (Re.findall0 re_increments (strip l)) as [jinc|]; simpl; auto.
    destruct (getitem jinc 0) as [g0|]; simpl; auto.
    destruct (float_of_digits g0) as [m|]; simpl; auto.
    destruct (getitem jinc 1) as [g1|]; simpl; auto.
    destruct (float_of_digits g1) as [c|]; simpl; auto.
    destruct (getitem jinc 2) as [g2|]; simpl; auto.
    destruct (float_of_digits g2) as [inc|]; simpl; auto.
    apply IH. intros l' Hl'. apply H. right. exact Hl'.
Qed.

Lemma float_of_digits_ok (s : string) :
  s <> "" -> exists q, float_of_digits s = Ok q.
Proof. destruct s; [contradiction|]. intros _. simpl. eauto. Qed.

Lemma increments_loop_index_error :
  forall rest t j,
    (forall l, In l rest ->
               exists a b c,
                 Re.rmatch re_increments (strip l) = Some [a; b; c]
                 /\ a <> "" /\ b <> "" /\ c <> "") ->
    increments_loop rest t j = Raise IndexError.
Proof.
  induction rest as [|l rest IH]; intros t j H; simpl.
  - reflexivity.
  - destruct (H l (or_introl eq_refl)) as [a [b [c [E [Ha [Hb Hc]]]]]].
    rewrite E, (findall0_of_rmatch _ _ _ E). simpl.
    destruct (float_of_digits_ok a Ha) as [qa ->].
    destruct (float_of_digits_ok b Hb) as [qb ->].
    destruct (float_of_digits_ok c Hc) as [qc ->]. simpl.
    apply IH. intros l' Hl'. apply H. right. exact Hl'.
Qed.

Lemma read_logfile_ok_all (methods : list string) (logf : list string)
  (i : nat) (line : string) :
  is_ok (read_logfile methods logf) = true ->
  nth_error logf i = Some line -> is_run_start methods line = true ->
  exists r, parse_run methods logf i line = Ok r.
Proof.
  intros Hok Hi Hs. destruct (parse_run methods logf i line) as [r|e] eqn:E.
  - eauto.
  - assert (F : is_ok (read_logfile methods logf) = false).
    { apply (read_logfile_not_ok _ _ _ _ Hi Hs). rewrite E. reflexivity. }
    congruence.
Qed.

(** C10: [read_logfile] returns only when every run-start line has a
    line after it and the increment lines of every run end at a line
    that does not match.  A run start on the last line, or increment
    lines up to the last line, leave no result; the exception is the
    [IndexError] of the line index whenever the parse gets that far
    (the runs before parse, the date of the start line is read, and in
    the second case the name is found and each number is there). *)
Theorem read_logfile_needs_terminated_runs (methods : list string)
  (logf : list string) (i : nat) (line : string) :
  nth_error logf i = Some line -> is_run_start methods line = true ->
  (is_ok (read_logfile methods logf) = true ->
   i + 1 < length logf
   /\ exists k l,
       nth_error logf (i + 4 + k) = Some l
       /\ Re.rmatch re_increments (strip l) = None
       /\ forall k', k' < k ->
            exists l', nth_error logf (i + 4 + k') = Some l'
                       /\ matched (Re.rmatch re_increments (strip l')) = true)
  /\ (i + 1 = length logf ->
      is_ok (read_logfile methods logf) = false
      /\ (runs_before_parse methods logf i ->
          is_ok (run_datetime line) = true ->
          read_logfile methods logf = Raise IndexError))
  /\ ((forall l, In l (skipn (i + 4) logf) ->
                 matched (Re.rmatch re_increments (strip l)) = true) ->
      is_ok (read_logfile methods logf) = false
      /\ (runs_before_parse methods logf i ->
          is_ok (run_datetime line) = true ->
          is_ok (sample_name logf i) = true ->
          (forall l, In l (skipn (i + 4) logf) ->
                     exists a b c,
                       Re.rmatch re_increments (strip l) = Some [a; b; c]
                       /\ a <> "" /\ b <> "" /\ c <> "") ->
          read_logfile methods logf = Raise IndexError)).
Proof.
  intros Hi Hs. destruct (parse_run_unfold methods logf i line Hs) as [meth Hp].
  split; [|split].
  - intros Hok. destruct (read_logfile_ok_all _ _ _ _ Hok Hi Hs) as [r Hr].
    apply parse_run_ok_inv in Hr.
    destruct Hr as [dt [nm [t [j [tc [_ [Hn [Hl _]]]]]]]].
    split.
    + destruct (sample_name_ok_inv _ _ _ Hn) as [nxt [Hnxt _]].
      apply nth_error_Some. rewrite Hnxt. discriminate.
    + destruct (increments_loop_ok_inv _ _ _ _ _ Hl) as [k [l [Hk [Hno Hall]]]].
      exists k, l. rewrite nth_error_skipn in Hk. repeat split; auto.
      intros k' Hlt. destruct (Hall k' Hlt) as [l' [Hl' Hm]].
      exists l'. rewrite nth_error_skipn in Hl'. auto.
  - intros Hlast.
    assert (Hname : sample_name logf i = Raise IndexError).
    { apply sample_name_no_line. lia. }
    split.
    + apply (read_logfile_not_ok _ _ _ _ Hi Hs). rewrite Hp, Hname.
      destruct (run_datetime line); reflexivity.
    + intros Hbefore Hdt.
      apply (read_logfile_raise_first _ _ _ _ _ Hi Hs); [|exact Hbefore].
      rewrite Hp, Hname. destruct (run_datetime line);
        [reflexivity|discriminate].
  - intros Hall. split.
    + apply (read_logfile_not_ok _ _ _ _ Hi Hs). rewrite Hp.
      destruct (run_datetime line); [|reflexivity]. simpl.
      destruct (sample_name logf i); [|reflexivity]. simpl.
      pose proof (increments_loop_all_match _ seed_table 4 Hall) as Hloop.
      destruct (increments_loop (skipn (i + 4) logf) seed_table 4);
        [discriminate|reflexivity].
    + intros Hbefore Hdt Hname Hnum.
      apply (read_logfile_raise_first _ _ _ _ _ Hi Hs); [|exact Hbefore].
      rewrite Hp. destruct (run_datetime line); [|discriminate]. simpl.
      destruct (sample_name logf i); [|discriminate]. simpl.
      rewrite (increments_loop_index_error _ seed_table 4 Hnum). reflexivity.
Qed.

Lemma read_logfile_needs_terminated_runs_witness :
  1 + 1 < length logfile_two_increments
  /\ read_logfile default_methods logfile_start_last = Raise IndexError
  /\ read_logfile default_methods logfile_increments_to_end
     = Raise IndexError.
Proof.
  split; [|split].
  - destruct (read_logfile_needs_terminated_runs default_methods
                logfile_two_increments 1
                "3C standard.mth run started 01/02/19  10:30")
      as [T _].
    + reflexivity.
    + vm_compute. reflexivity.
    + apply T. vm_compute. reflexivity.
  - destruct (read_logfile_needs_terminated_runs default_methods
                logfile_start_last 1 run_start_line)
      as [_ [T _]].
    + reflexivity.
    + vm_compute. reflexivity.
    + apply T.
      * reflexivity.
      * intros k l Hk Hn Hs. destruct k as [|[|k]]; [|lia|lia].
        simpl in Hn. inversion Hn; subst l. vm_compute in Hs. discriminate.
      * vm_compute. reflexivity.
  - destruct (read_logfile_needs_terminated_runs default_methods
                logfile_increments_to_end 0 run_start_line)
      as [_ [_ T]].
    + reflexivity.
    + vm_compute. reflexivity.
    + apply T.
      * intros l [<-|[<-|[]]]; vm_compute; reflexivity.
      * intros k l Hk. lia.
      * vm_compute. reflexivity.
      * vm_compute. reflexivity.
      * intros l [<-|[<-|[]]].
        -- exists "1", "10", "5".
           split; [vm_compute; reflexivity|]. repeat split; discriminate.
        -- exists "2", "30", "20".
           split; [vm_compute; reflexivity|]. repeat split; discriminate.
Defined.

(** *** The matcher *)

Local Open Scope list_scope.

Lemma datetime_eqb_eq (a b : datetime64) : datetime_eqb a b = true <-> a = b.
Proof.
  unfold datetime_eqb. destruct a, b; simpl.
  rewrite !andb_true_iff, !Nat.eqb_eq. split.
  - intros [[[[-> ->] ->] ->] ->]. reflexivity.
  - intros H. inversion H. auto.
Qed.

Lemma same_run_spec (x : dbs_row) (r : run) :
  same_run x r = true <-> matches_run x r.
Proof.
  unfold same_run, matches_run. rewrite andb_true_iff, String.eqb_eq,
    datetime_eqb_eq. intuition congruence.
Qed.

Lemma bottle_in_logfile (x : dbs_row) (logfile : list run) :
  existsb (String.eqb (dbs_bottle x)) (map bottle logfile) = true
  <-> In (dbs_bottle x) (map bottle logfile).
Proof.
  rewrite existsb_exists. split.
  - intros [b [Hin Hb]]. apply String.eqb_eq in Hb. congruence.
  - intros Hin. exists (dbs_bottle x). split; [exact Hin|].
    apply String.eqb_refl.
Qed.

Lemma where_unique_match (x : dbs_row) (logfile : list run) (k : nat) :
  np_where (same_run x) logfile = [k] <-> unique_match x logfile k.
Proof.
  split.
  - intros E. split.
    + assert (Hin : In k (np_where (same_run x) logfile))
        by (rewrite E; left; reflexivity).
      apply np_where_spec in Hin. destruct Hin as [r [Hn Hs]].
      exists r. split; [exact Hn|]. apply same_run_spec, Hs.
    + intros k' r' Hn Hm.
      assert (Hin : In k' (np_where (same_run x) logfile)).
      { apply np_where_spec. exists r'. split; [exact Hn|].
        apply same_run_spec, Hm. }
      rewrite E in Hin. destruct Hin as [<-|[]]. reflexivity.
  - intros [[r [Hn Hm]] Huniq]. apply increasing_singleton.
    + apply np_where_from_increasing.
    + apply np_where_spec. exists r. split; [exact Hn|].
      apply same_run_spec, Hm.
    + intros k' Hin. apply np_where_spec in Hin.
      destruct Hin as [r' [Hn' Hs']]. apply (Huniq k' r' Hn').
      apply same_run_spec, Hs'.
Qed.

Lemma matcher_no_match (x : dbs_row) (logfile : list run) :
  ~ In (dbs_bottle x) (map bottle logfile) -> _logfile2dbs x logfile = Ok Nan.
Proof.
  intros Hnot. unfold _logfile2dbs.
  destruct (existsb (String.eqb (dbs_bottle x)) (map bottle logfile))
    eqn:Ex; [|reflexivity].
  apply bottle_in_logfile in Ex. contradiction.
Qed.

(** C5: for a manifest row whose bottle occurs in the logfile, the
    matcher gives the position of the run with the same bottle and date
    when there is exactly one, and otherwise fails an assertion whose
    message ends with the label of the row; for a row whose bottle does
    not occur, it gives [nan] and raises nothing.  Over the table,
    [logfile2dbs] stops at the first row that fails and otherwise
    returns every row with its cell. *)
Theorem matcher_unique_or_fatal (x : dbs_row) (logfile : list run) :
  (In (dbs_bottle x) (map bottle logfile) ->
   (forall k, unique_match x logfile k ->
              _logfile2dbs x logfile = Ok (Int (Z.of_nat k)))
   /\ ((forall k, ~ unique_match x logfile k) ->
       _logfile2dbs x logfile
       = Raise (AssertionError
                  ("More than one (or no) name/date matches found between "
                   ++ "dbs and logfile! @ dbs iloc "
                   ++ format_nat (name x))%string)
       /\ forall pre post,
           (forall y, In y pre -> is_ok (_logfile2dbs y logfile) = true) ->
           logfile2dbs (pre ++ x :: post) logfile
           = Raise (AssertionError (no_unique_match x))))
  /\ (~ In (dbs_bottle x) (map bottle logfile) ->
      _logfile2dbs x logfile = Ok Nan
      /\ forall dbs,
          (forall y, In y dbs -> is_ok (_logfile2dbs y logfile) = true) ->
          In x dbs ->
          exists dbs',
            logfile2dbs dbs logfile = Ok dbs'
            /\ In (set_logfile_iloc x Nan) dbs').
Proof.
  split.
  - intros Hin. apply bottle_in_logfile in Hin. split.
    + intros k Hk. apply where_unique_match in Hk.
      unfold _logfile2dbs. rewrite Hin, Hk. reflexivity.
    + intros Hno.
      assert (E : _logfile2dbs x logfile
                  = Raise (AssertionError (no_unique_match x))).
      { unfold _logfile2dbs. rewrite Hin.
        destruct (np_where (same_run x) logfile) as [|k [|k' l]] eqn:E;
          try reflexivity.
        exfalso. apply (Hno k). apply where_unique_match, E. }
      split; [exact E|]. intros pre post Hpre. unfold logfile2dbs.
      apply mapM_raise_first.
      * intros y Hy. specialize (Hpre y Hy).
        destruct (_logfile2dbs y logfile); [reflexivity|discriminate].
      * rewrite E. reflexivity.
  - intros Hnot.
    pose proof (matcher_no_match x logfile Hnot) as E.
    split; [exact E|]. intros dbs Hall Hx.
    set (cell_of := fun y => match _logfile2dbs y logfile with
                             | Ok c => c
                             | Raise _ => Nan
                             end).
    exists (map (fun y => set_logfile_iloc y (cell_of y)) dbs). split.
    + unfold logfile2dbs. apply mapM_ok. intros y Hy. unfold cell_of.
      specialize (Hall y Hy).
      destruct (_logfile2dbs y logfile); [reflexivity|discriminate].
    + apply in_map_iff. exists x. split; [|exact Hx].
      unfold cell_of. rewrite E. reflexivity.
Qed.

Lemma matcher_unique_or_fatal_witness :
  _logfile2dbs dbs_std1 two_runs = Ok (Int 0)
  /\ _logfile2dbs dbs_other_date two_runs
     = Raise (AssertionError (no_unique_match dbs_other_date))
  /\ _logfile2dbs dbs_planned two_runs = Ok Nan.
Proof.
  split; [|split].
  - destruct (matcher_unique_or_fatal dbs_std1 two_runs) as [T _].
    destruct T as [T _].
    + simpl. auto.
    + apply (T 0). split.
      * exists run_two_increments. repeat split.
      * intros [|[|k']] r' Hn [Hb Hd]; simpl in Hn.
        -- reflexivity.
        -- inversion Hn; subst r'. discriminate.
        -- destruct k'; discriminate.
  - destruct (matcher_unique_or_fatal dbs_other_date two_runs) as [T _].
    destruct T as [_ T].
    + simpl. auto.
    + apply T. intros k [[r [Hn [Hb Hd]]] _].
      destruct k as [|[|k]]; simpl in Hn.
      * inversion Hn; subst r. discriminate.
      * inversion Hn; subst r. discriminate.
      * destruct k; discriminate.
  - destruct (matcher_unique_or_fatal dbs_planned two_runs) as [_ T].
    apply T. simpl. intros [H|[H|[]]]; discriminate.
Defined.

(** *** The blank extractor *)

(** Selecting with the mask of the [minutes] column is filtering the
    rows of the table. *)
Lemma mask_select_rows (f : Qc -> bool) :
  forall ms cs incs : list Qc,
    length ms = length cs -> length cs = length incs ->
    mask_select incs (map f ms)
    = Ok (map (fun row => snd row)
            (filter (fun row => f (fst (fst row)))
               (combine (combine ms cs) incs))).
Proof.
  induction ms as [|m ms IH]; intros [|c cs] [|inc incs] H1 H2;
    simpl in *; try discriminate; [reflexivity|].
  rewrite (IH cs incs) by lia. simpl. destruct (f m); reflexivity.
Qed.

Lemma get_blanks_row (x : dbs_row) (logfile : list run) (usefrom : Qc)
  (c : cell) (r : run) :
  logfile_iloc x = Some c -> iloc logfile c = Ok r ->
  (0 < usefrom)%Qc -> in_step (table_of r) ->
  _get_blanks x logfile usefrom
  = Ok (np_mean (increments_from usefrom (table_of r))).
Proof.
  intros Hc Hr Hpos [H1 H2]. unfold _get_blanks. rewrite Hc.
  apply Qc_ltb_true in Hpos. rewrite Hpos, Hr. simpl.
  rewrite (mask_select_rows _ _ (counts (table_of r))) by assumption.
  reflexivity.
Qed.

(** C6: for a manifest row whose cell is the position of a run and a
    cutoff above zero, the blank is the arithmetic mean of the
    [increments] values of the rows of the run's table whose [minutes]
    value is at least the cutoff ([nan] when there is no such row);
    when every row of the manifest has such a cell, [get_blanks]
    returns each row with this value. *)
Theorem blank_is_mean_from_cutoff (logfile : list run) (usefrom : Qc) :
  (0 < usefrom)%Qc ->
  (forall x c r,
      logfile_iloc x = Some c -> iloc logfile c = Ok r ->
      in_step (table_of r) ->
      exists b,
        _get_blanks x logfile usefrom = Ok b
        /\ (increments_from usefrom (table_of r) = [] -> b = NaN)
        /\ (increments_from usefrom (table_of r) <> [] ->
            b = Fin (arithmetic_mean (increments_from usefrom (table_of r)))))
  /\ (forall dbs,
         (forall x, In x dbs ->
                    exists c r,
                      logfile_iloc x = Some c /\ iloc logfile c = Ok r
                      /\ in_step (table_of r)) ->
         exists out,
           get_blanks dbs logfile usefrom = Ok out
           /\ map fst out = dbs
           /\ forall x b c r,
               In (x, b) out -> logfile_iloc x = Some c ->
               iloc logfile c = Ok r ->
               b = np_mean (increments_from usefrom (table_of r))).
Proof.
  intros Hpos. split.
  - intros x c r Hc Hr Hstep.
    exists (np_mean (increments_from usefrom (table_of r))). split.
    + apply (get_blanks_row x logfile usefrom c r); assumption.
    + split.
      * intros E. rewrite E. reflexivity.
      * intros E. destruct (increments_from usefrom (table_of r));
          [contradiction|reflexivity].
  - intros dbs Hall.
    set (blank_of := fun x => match _get_blanks x logfile usefrom with
                              | Ok b => b
                              | Raise _ => NaN
                              end).
    assert (Hrow : forall x, In x dbs ->
                             _get_blanks x logfile usefrom = Ok (blank_of x)).
    { intros x Hx. destruct (Hall x Hx) as [c [r [Hc [Hr Hstep]]]].
      unfold blank_of.
      rewrite (get_blanks_row x logfile usefrom c r); auto. }
    exists (map (fun x => (x, blank_of x)) dbs). split; [|split].
    + unfold get_blanks. apply mapM_ok. intros x Hx.
      rewrite (Hrow x Hx). reflexivity.
    + rewrite map_map. simpl. apply map_id.
    + intros x b c r Hin Hc Hr. apply in_map_iff in Hin.
      destruct Hin as [x' [Heq Hx']]. inversion Heq; subst x' b.
      destruct (Hall x Hx') as [c' [r' [Hc' [Hr' Hstep]]]].
      assert (c' = c) by congruence. subst c'.
      assert (r' = r) by congruence. subst r'.
      pose proof (Hrow x Hx') as E.
      rewrite (get_blanks_row x logfile usefrom c r) in E; auto.
      inversion E. reflexivity.
Qed.

Lemma blank_is_mean_from_cutoff_witness :
  _get_blanks dbs_blank [run_blank] default_usefrom = Ok (Fin (Qc_of_nat 4)).
Proof.
  destruct (blank_is_mean_from_cutoff [run_blank] default_usefrom) as [T _].
  - reflexivity.
  - destruct (T dbs_blank (Int 0) run_blank) as [b [Hb [_ Hmean]]].
    + reflexivity.
    + reflexivity.
    + split; reflexivity.
    + rewrite Hb, Hmean.
      * f_equal. f_equal. apply Qc_is_canon. reflexivity.
      * discriminate.
Defined.

Lemma parsed_runs_in_step (methods : list string) (logf : list string)
  (rs : list run) (r : run) :
  read_logfile methods logf = Ok rs -> In r rs -> in_step (table_of r).
Proof.
  intros H Hin.
  destruct (read_logfile_ok_inv _ _ _ _ H Hin) as [i [line [_ [_ Hp]]]].
  destruct (parsed_table_shape _ _ _ _ _ Hp)
    as [ms [cs [incs [Hm [Hc [Hinc [L1 [L2 _]]]]]]]].
  unfold in_step. rewrite Hm, Hc, Hinc. simpl. lia.
Qed.

Lemma get_blanks_nan (x : dbs_row) (logfile : list run) (usefrom : Qc) :
  logfile_iloc x = Some Nan ->
  is_ok (_get_blanks x logfile usefrom) = false
  /\ ((0 < usefrom)%Qc -> _get_blanks x logfile usefrom = Raise TypeError).
Proof.
  intros Hc. unfold _get_blanks. rewrite Hc. split.
  - destruct (Qc_ltb 0 usefrom); reflexivity.
  - intros Hpos. apply Qc_ltb_true in Hpos. rewrite Hpos. reflexivity.
Qed.

(** What the code does with any manifest row whose bottle is not in
    the logfile: the matcher leaves it the cell [nan], and
    [get_blanks] then has no blank for it, missing or not: for a cutoff
    above zero the row raises the [TypeError] of a position that is no
    integer, and [get_blanks] returns no table. *)
Theorem get_blanks_no_match_raises (dbs : list dbs_row) (logfile : list run)
  (dbs' : list dbs_row) (usefrom : Qc) (x : dbs_row) :
  logfile2dbs dbs logfile = Ok dbs' -> In x dbs ->
  ~ In (dbs_bottle x) (map bottle logfile) ->
  In (set_logfile_iloc x Nan) dbs'
  /\ ((0 < usefrom)%Qc ->
      _get_blanks (set_logfile_iloc x Nan) logfile usefrom = Raise TypeError)
  /\ is_ok (get_blanks dbs' logfile usefrom) = false.
Proof.
  intros Hm Hx Hnot.
  assert (Hin : In (set_logfile_iloc x Nan) dbs').
  { apply In_nth_error in Hx. destruct Hx as [k Hk].
    destruct (mapM_ok_inv _ _ _ Hm) as [_ Hall].
    destruct (Hall k x Hk) as [b [Hb Hnb]].
    rewrite (matcher_no_match x logfile Hnot) in Hb. simpl in Hb.
    inversion Hb; subst b.
    apply nth_error_In with (n := k). exact Hnb. }
  destruct (get_blanks_nan (set_logfile_iloc x Nan) logfile usefrom eq_refl)
    as [Hno Htype].
  split; [exact Hin|]. split; [exact Htype|].
  unfold get_blanks. apply mapM_not_ok with (a := set_logfile_iloc x Nan).
  - exact Hin.
  - destruct (_get_blanks (set_logfile_iloc x Nan) logfile usefrom);
      [discriminate|reflexivity].
Qed.

Lemma get_blanks_no_match_raises_witness :
  In (set_logfile_iloc dbs_planned Nan)
    [set_logfile_iloc dbs_std1 (Int 0); set_logfile_iloc dbs_planned Nan]
  /\ _get_blanks (set_logfile_iloc dbs_planned Nan) two_runs default_usefrom
     = Raise TypeError
  /\ is_ok (get_blanks
              [set_logfile_iloc dbs_std1 (Int 0);
               set_logfile_iloc dbs_planned Nan]
              two_runs default_usefrom) = false.
Proof.
  destruct (get_blanks_no_match_raises [dbs_std1; dbs_planned] two_runs
              [set_logfile_iloc dbs_std1 (Int 0);
               set_logfile_iloc dbs_planned Nan]
              default_usefrom dbs_planned) as [H1 [H2 H3]].
  - vm_compute. reflexivity.
  - simpl. auto.
  - simpl. intros [H|[H|[]]]; discriminate.
  - split; [exact H1|]. split; [|exact H3]. apply H2. reflexivity.
Defined.

(** C2: the claim wants a missing blank and no exception for a manifest
    row without a run; the code does otherwise.  The row [dbs_planned]
    has no run in [two_runs], the matcher gives it [nan], and
    [get_blanks] on the matcher's own result raises a [TypeError]
    instead of returning the row with a [nan] blank. *)
Lemma get_blanks_no_match_is_not_missing_value :
  logfile2dbs [dbs_planned] two_runs = Ok [set_logfile_iloc dbs_planned Nan]
  /\ get_blanks [set_logfile_iloc dbs_planned Nan] two_runs default_usefrom
     = Raise TypeError
  /\ get_blanks [set_logfile_iloc dbs_planned Nan] two_runs default_usefrom
     <> Ok [(set_logfile_iloc dbs_planned Nan, NaN)].
Proof.
  split; [|split].
  - vm_compute. reflexivity.
  - vm_compute. reflexivity.
  - vm_compute. discriminate.
Qed.

(** *** More on [read_logfile]: which runs, in which order *)

Local Open Scope list_scope.

Lemma scan_runs (methods : list string) (logf : list string) :
  forall rest i rs,
    scan methods logf i rest = Ok rs ->
    Forall2 (fun r k =>
               logfileline r = k
               /\ exists line,
                   nth_error rest (k - i) = Some line /\ i <= k
                   /\ parse_run methods logf k line = Ok r)
      rs (np_where_from (is_run_start methods) i rest).
Proof.
  induction rest as [|line rest IH]; intros i rs H; simpl in H.
  - inversion H. constructor.
  - assert (Hshift : forall rs',
               Forall2 (fun r k =>
                          logfileline r = k
                          /\ exists l,
                              nth_error rest (k - S i) = Some l /\ S i <= k
                              /\ parse_run methods logf k l = Ok r)
                 rs' (np_where_from (is_run_start methods) (S i) rest) ->
               Forall2 (fun r k =>
                          logfileline r = k
                          /\ exists l,
                              nth_error (line :: rest) (k - i) = Some l
                              /\ i <= k
                              /\ parse_run methods logf k l = Ok r)
                 rs' (np_where_from (is_run_start methods) (S i) rest)).
    { intros rs' HF. induction HF as [|r k rs' ks [Hk [l [Hn [Hle Hp]]]] _ IH'].
      - constructor.
      - constructor; [|exact IH']. split; [exact Hk|]. exists l.
        replace (k - i) with (S (k - S i)) by lia. simpl.
        repeat split; auto. lia. }
    simpl. destruct (is_run_start methods line) eqn:Hs.
    + do 2 bind_inv H. inversion H; subst rs. constructor.
      * split.
        -- apply parse_run_ok_inv in Ha.
           destruct Ha as [dt [nm [t [j [tc [_ [_ [_ [_ [Hl _]]]]]]]]]].
           exact Hl.
        -- exists line. rewrite Nat.sub_diag. auto.
      * apply Hshift, IH, Ha0.
    + apply Hshift, IH, H.
Qed.

Lemma np_where_from_length {A : Type} (p : A -> bool) (l : list A) (i : nat) :
  length (np_where_from p i l) = length (filter p l).
Proof.
  revert i. induction l as [|a l IH]; intros i; simpl; [reflexivity|].
  destruct (p a); simpl; rewrite IH; reflexivity.
Qed.

Lemma Forall2_map_eq {A B : Type} (f : A -> B) (l : list A) (l' : list B) :
  Forall2 (fun a b => f a = b) l l' -> map f l = l'.
Proof. induction 1; simpl; congruence. Qed.

(** X1: the records that [read_logfile] returns are the runs of the
    file in file order: there is one record per line that matches the
    run-start pattern, the record of the k-th such line is the parse of
    that line, and its [logfileline] is the index of the line. *)
Theorem read_logfile_runs_in_file_order (methods : list string)
  (logf : list string) (rs : list run) :
  read_logfile methods logf = Ok rs ->
  map logfileline rs = np_where (is_run_start methods) logf
  /\ length rs = length (filter (is_run_start methods) logf)
  /\ Forall2 (fun r k =>
                exists line,
                  nth_error logf k = Some line
                  /\ parse_run methods logf k line = Ok r)
       rs (np_where (is_run_start methods) logf).
Proof.
  intros H. pose proof (scan_runs _ _ _ _ _ H) as HF.
  fold (np_where (is_run_start methods) logf) in HF.
  assert (Hmap : map logfileline rs = np_where (is_run_start methods) logf).
  { apply Forall2_map_eq. eapply Forall2_impl; [|exact HF].
    intros r k [Hk _]. exact Hk. }
  split; [exact Hmap|]. split.
  - rewrite <- (length_map logfileline), Hmap. unfold np_where.
    apply np_where_from_length.
  - eapply Forall2_impl; [|exact HF].
    intros r k [_ [line [Hn [_ Hp]]]]. exists line.
    rewrite Nat.sub_0_r in Hn. auto.
Qed.

Lemma read_logfile_runs_in_file_order_witness :
  map logfileline [run_other] = np_where (is_run_start default_methods)
                                  logfile_other_at_42
  /\ length [run_other]
     = length (filter (is_run_start default_methods) logfile_other_at_42).
Proof.
  destruct (read_logfile_runs_in_file_order default_methods
              logfile_other_at_42 [run_other]) as [H1 [H2 _]].
  - vm_compute. reflexivity.
  - split; assumption.
Defined.




(** *** More on the patterns: what a match says about the line *)

Local Open Scope string_scope.

Lemma rep_split_sound (cls : ascii -> bool) :
  forall n s a r,
    Re.rep_split cls n s = Some (a, r) ->
    s = a ++ r /\ String.length a = n /\ all_chars cls a = true.
Proof.
  induction n as [|n IH]; intros s a r H; simpl in H.
  - inversion H. auto.
  - destruct s as [|c s]; [discriminate|].
    destruct (cls c) eqn:Ec; [|discriminate].
    destruct (Re.rep_split cls n s) as [[a' r']|] eqn:E; [|discriminate].
    inversion H; subst. destruct (IH _ _ _ E) as [-> [Hl Ha]].
    simpl. rewrite Ec, Ha, Hl. auto.
Qed.

Lemma search_sound (p : Re.pattern) :
  forall s gs,
    Re.search p s = Some gs ->
    exists pre suf, s = pre ++ suf /\ Re.rmatch p suf = Some gs.
Proof.
  induction s as [|c s IH]; intros gs H; simpl in H.
  - destruct (Re.rmatch p "") as [g|] eqn:E; [|discriminate].
    inversion H; subst. exists "", "". auto.
  - destruct (Re.rmatch p (String c s)) as [g|] eqn:E.
    + inversion H; subst. exists "", (String c s). auto.
    + destruct (IH _ H) as [pre [suf [-> Hm]]].
      exists (String c pre), suf. auto.
Qed.

(** One step of reading a match: the next literal or group of the
    pattern against the hypothesis [H] that a match exists. *)
Ltac peel H :=
  cbn [Re.matches] in H;
  lazymatch type of H with
  | In _ (match Re.strip_prefix ?l ?s with _ => _ end) =>
      let E := fresh "E" in
      let s1 := fresh "s" in
      destruct (Re.strip_prefix l s) as [s1|] eqn:E;
      [apply strip_prefix_sound in E|destruct H]
  | In _ (match Re.rep_split ?c ?n ?s with _ => _ end) =>
      let E := fresh "E" in
      let a := fresh "g" in
      let r := fresh "s" in
      let gs' := fresh "gs" in
      destruct (Re.rep_split c n s) as [[a r]|] eqn:E;
      [apply rep_split_sound in E; apply in_with_group in H;
       destruct H as [gs' [-> H]]
      |destruct H]
  | In _ (flat_map _ (Re.star_splits ?c ?s)) =>
      let Hsp := fresh "Hsp" in
      let a := fresh "g" in
      let r := fresh "s" in
      let gs' := fresh "gs" in
      apply in_flat_map in H; destruct H as [[a r] [Hsp H]];
      cbn [fst snd] in H; apply star_splits_sound in Hsp;
      apply in_with_group in H; destruct H as [gs' [-> H]]
  end.

Lemma rmatch_increments_sound (s : string) (gs : list string) :
  Re.rmatch re_increments s = Some gs ->
  exists a b c rest,
    gs = [a; b; c]
    /\ s = a ++ tab ++ b ++ tab ++ c ++ tab ++ rest
    /\ all_chars is_digit a = true /\ all_chars is_digit b = true
    /\ all_chars is_digit c = true.
Proof.
  intros H. apply rmatch_in in H. destruct H as [r H].
  unfold re_increments in H. do 6 peel H.
  cbn [Re.matches] in H. destruct H as [H|[]]. inversion H; subst.
  destruct Hsp as [-> Ha]. destruct Hsp0 as [-> Hb]. destruct Hsp1 as [-> Hc].
  subst. exists g, g0, g1, r. auto.
Qed.

Lemma rmatch_datetime_sound (s : string) (gs : list string) :
  Re.rmatch re_datetime s = Some gs ->
  exists mm dd yy hh mi rest,
    gs = [mm; dd; yy; hh; mi]
    /\ s = "started " ++ mm ++ "/" ++ dd ++ "/" ++ yy ++ "  " ++ hh ++ ":"
             ++ mi ++ rest
    /\ Forall (fun g => String.length g = 2 /\ all_chars is_digit g = true)
         [mm; dd; yy; hh; mi].
Proof.
  intros H. apply rmatch_in in H. destruct H as [r H].
  unfold re_datetime in H. do 10 peel H.
  cbn [Re.matches] in H. destruct H as [H|[]]. inversion H; subst.
  destruct E0 as [-> [L0 D0]]. destruct E2 as [-> [L2 D2]].
  destruct E4 as [-> [L4 D4]]. destruct E6 as [-> [L6 D6]].
  destruct E8 as [-> [L8 D8]]. subst.
  exists g, g0, g1, g2, g3, r. repeat split; auto.
  repeat constructor; auto.
Qed.





(** *** The date of a run *)

Lemma two_chars (s : string) :
  String.length s = 2 -> exists a b, s = String a (String b "").
Proof.
  destruct s as [|a [|b [|c s]]]; simpl; intros H; try discriminate.
  eauto.
Qed.

Lemma two_digits (s : string) :
  String.length s = 2 /\ all_chars is_digit s = true ->
  exists a b,
    s = String a (String b "") /\ is_digit a = true /\ is_digit b = true.
Proof.
  intros [Hl Hd]. destruct (two_chars s Hl) as [a [b ->]].
  simpl in Hd. rewrite andb_true_r in Hd. apply andb_prop in Hd.
  exists a, b. tauto.
Qed.

Lemma nat_of_two_digits (a b : ascii) :
  nat_of_digits (String a (String b ""))
  = 10 * (nat_of_ascii a - 48) + (nat_of_ascii b - 48).
Proof. unfold nat_of_digits. cbn [digits_value]. lia. Qed.

Lemma nat_of_year (a b : ascii) :
  nat_of_digits (String "2" (String "0" (String a (String b ""))))
  = 2000 + nat_of_digits (String a (String b "")).
Proof.
  rewrite nat_of_two_digits. unfold nat_of_digits. cbn [digits_value].
  change (nat_of_ascii "2" - 48) with 2. change (nat_of_ascii "0" - 48) with 0.
  lia.
Qed.

Lemma digit_below_ten (a : ascii) : is_digit a = true -> nat_of_ascii a - 48 < 10.
Proof.
  unfold is_digit. intros H. apply andb_prop in H. destruct H as [_ H].
  apply Nat.leb_le in H. lia.
Qed.

(** [np.datetime64] on the string that [read_logfile] builds from five
    fields of two digits. *)
Lemma datetime_of_fields (mm dd yy hh mi : string) (dt : datetime64) :
  Forall (fun g => String.length g = 2 /\ all_chars is_digit g = true)
    [mm; dd; yy; hh; mi] ->
  np_datetime64 ("20" ++ yy ++ "-" ++ mm ++ "-" ++ dd ++ "T" ++ hh ++ ":" ++ mi)
  = Ok dt ->
  dt = mkDatetime (2000 + nat_of_digits yy) (nat_of_digits mm)
         (nat_of_digits dd) (nat_of_digits hh) (nat_of_digits mi)
  /\ nat_of_digits yy < 100.
Proof.
  intros HF H.
  inversion HF as [|? ? Hmm HF1]; subst. inversion HF1 as [|? ? Hdd HF2]; subst.
  inversion HF2 as [|? ? Hyy HF3]; subst. inversion HF3 as [|? ? Hhh HF4]; subst.
  inversion HF4 as [|? ? Hmi _]; subst.
  destruct (two_digits _ Hmm) as [m1 [m2 [-> [Dm1 Dm2]]]].
  destruct (two_digits _ Hdd) as [d1 [d2 [-> [Dd1 Dd2]]]].
  destruct (two_digits _ Hyy) as [y1 [y2 [-> [Dy1 Dy2]]]].
  destruct (two_digits _ Hhh) as [h1 [h2 [-> [Dh1 Dh2]]]].
  destruct (two_digits _ Hmi) as [i1 [i2 [-> [Di1 Di2]]]].
  assert (D2 : is_digit "2" = true) by reflexivity.
  assert (D0 : is_digit "0" = true) by reflexivity.
  unfold np_datetime64, Re.fullmatch, re_iso in H.
  do 6 (cbn -[is_digit nat_of_digits days_in_month Nat.leb Nat.ltb] in H;
        rewrite ?D2, ?D0, ?Dy1, ?Dy2, ?Dm1, ?Dm2, ?Dd1, ?Dd2, ?Dh1, ?Dh2,
          ?Di1, ?Di2 in H).
  match type of H with
  | (if ?c then _ else _) = _ => destruct c; [|discriminate]
  end.
  inversion H. rewrite nat_of_year. split; [reflexivity|].
  rewrite nat_of_two_digits.
  pose proof (digit_below_ten _ Dy1). pose proof (digit_below_ten _ Dy2). lia.
Qed.

Lemma run_datetime_ok_inv (line : string) (dt : datetime64) :
  run_datetime line = Ok dt ->
  exists pre mm dd yy hh mi rest,
    line = pre ++ "started " ++ mm ++ "/" ++ dd ++ "/" ++ yy ++ "  " ++ hh
             ++ ":" ++ mi ++ rest
    /\ Forall (fun g => String.length g = 2 /\ all_chars is_digit g = true)
         [mm; dd; yy; hh; mi]
    /\ dt = mkDatetime (2000 + nat_of_digits yy) (nat_of_digits mm)
              (nat_of_digits dd) (nat_of_digits hh) (nat_of_digits mi)
    /\ nat_of_digits yy < 100.
Proof.
  unfold run_datetime, Re.findall0. intros H.
  destruct (Re.search re_datetime line) as [ldt|] eqn:E; [|discriminate].
  simpl in H. destruct (search_sound _ _ _ E) as [pre [suf [-> Hm]]].
  destruct (rmatch_datetime_sound _ _ Hm)
    as [mm [dd [yy [hh [mi [rest [-> [-> HF]]]]]]]].
  cbn [nth] in H. destruct (datetime_of_fields _ _ _ _ _ _ HF H) as [-> Hy].
  exists pre, mm, dd, yy, hh, mi, rest. auto.
Qed.

(** X4: the date of a returned run is read from its run-start line,
    which holds [started MM/DD/YY  HH:MM] with two digits in each
    field: the first field is the month, the second the day, and the
    year is 2000 plus the third, so between 2000 and 2099. *)
Theorem run_date_is_month_day_year (methods : list string)
  (logf : list string) (rs : list run) (r : run) :
  read_logfile methods logf = Ok rs -> In r rs ->
  exists pre mm dd yy hh mi rest,
    nth_error logf (logfileline r)
    = Some (pre ++ "started " ++ mm ++ "/" ++ dd ++ "/" ++ yy ++ "  " ++ hh
              ++ ":" ++ mi ++ rest)
    /\ Forall (fun g => String.length g = 2 /\ all_chars is_digit g = true)
         [mm; dd; yy; hh; mi]
    /\ analysisdate r
       = mkDatetime (2000 + nat_of_digits yy) (nat_of_digits mm)
           (nat_of_digits dd) (nat_of_digits hh) (nat_of_digits mi)
    /\ 2000 <= year (analysisdate r) < 2100.
Proof.
  intros H Hin.
  destruct (read_logfile_ok_inv _ _ _ _ H Hin) as [i [line [Hi [Hs Hp]]]].
  apply parse_run_ok_inv in Hp.
  destruct Hp as [dt [nm [t [j [tc [Hdt [_ [_ [_ [Hl [Hd _]]]]]]]]]]].
  destruct (run_datetime_ok_inv _ _ Hdt)
    as [pre [mm [dd [yy [hh [mi [rest [Hline [HF [Hval Hy]]]]]]]]]].
  exists pre, mm, dd, yy, hh, mi, rest.
  rewrite Hl, Hi, Hline, Hd, Hval. simpl. repeat split; auto; lia.
Qed.

Lemma run_date_is_month_day_year_witness :
  exists pre mm dd yy hh mi rest,
    nth_error logfile_no_increment (logfileline run_no_increment)
    = Some (pre ++ "started " ++ mm ++ "/" ++ dd ++ "/" ++ yy ++ "  " ++ hh
              ++ ":" ++ mi ++ rest)
    /\ Forall (fun g => String.length g = 2 /\ all_chars is_digit g = true)
         [mm; dd; yy; hh; mi]
    /\ analysisdate run_no_increment
       = mkDatetime (2000 + nat_of_digits yy) (nat_of_digits mm)
           (nat_of_digits dd) (nat_of_digits hh) (nat_of_digits mi)
    /\ 2000 <= year (analysisdate run_no_increment) < 2100.
Proof.
  apply (run_date_is_month_day_year default_methods logfile_no_increment
           [run_no_increment] run_no_increment).
  - vm_compute. reflexivity.
  - simpl. auto.
Defined.

(** *** The increment lines *)

Lemma lstrip_head (s : string) (c : ascii) (t : string) :
  lstrip s = String c t -> is_space c = false.
Proof.
  induction s as [|d s IH]; simpl; [discriminate|].
  destruct (is_space d) eqn:E; [exact IH|].
  intros H. inversion H; subst. exact E.
Qed.

Lemma rstrip_head (c : ascii) (t : string) :
  is_space c = false -> exists t', rstrip (String c t) = String c t'.
Proof.
  intros Hc. simpl. destruct (rstrip t); [rewrite Hc|]; eauto.
Qed.

Lemma strip_head (s : string) (c : ascii) (t : string) :
  strip s = String c t -> is_space c = false.
Proof.
  unfold strip. intros H. destruct (lstrip s) as [|d u] eqn:E.
  - discriminate.
  - pose proof (lstrip_head _ _ _ E) as Hd.
    destruct (rstrip_head d u Hd) as [t' Ht']. rewrite Ht' in H.
    inversion H; subst. exact Hd.
Qed.

Lemma rstrip_last (s r : string) (c : ascii) :
  rstrip s = r ++ String c "" -> is_space c = false.
Proof.
  revert r. induction s as [|d s IH]; intros r H; simpl in H.
  - destruct r; discriminate.
  - destruct (rstrip s) as [|e u] eqn:E.
    + destruct (is_space d) eqn:Ed.
      * destruct r; discriminate.
      * destruct r as [|x r]; simpl in H.
        -- inversion H; subst. exact Ed.
        -- inversion H. destruct r; discriminate.
    + destruct r as [|x r]; simpl in H; [discriminate|].
      inversion H; subst. apply (IH r). assumption.
Qed.

Lemma string_snoc_inj (x y : string) (a b : ascii) :
  x ++ String a "" = y ++ String b "" -> a = b.
Proof.
  revert y. induction x as [|c x IH]; intros [|d y] H; simpl in H.
  - inversion H. reflexivity.
  - inversion H. destruct y; discriminate.
  - inversion H. destruct x; discriminate.
  - inversion H. apply (IH y). assumption.
Qed.

Lemma string_app_assoc (x y z : string) : (x ++ y) ++ z = x ++ y ++ z.
Proof. induction x as [|c x IH]; simpl; [reflexivity|]. rewrite IH. reflexivity. Qed.

(** What a line that counts as an increment line looks like once it
    is stripped. *)
Lemma increment_line_fields (l : string) (gs : list string) :
  Re.rmatch re_increments (strip l) = Some gs ->
  exists a b c rest,
    gs = [a; b; c]
    /\ strip l = a ++ tab ++ b ++ tab ++ c ++ tab ++ rest
    /\ all_chars is_digit a = true /\ all_chars is_digit b = true
    /\ all_chars is_digit c = true
    /\ a <> "" /\ rest <> "".
Proof.
  intros H. destruct (rmatch_increments_sound _ _ H)
    as [a [b [c [rest [-> [Hs [Da [Db Dc]]]]]]]].
  exists a, b, c, rest. repeat split; auto.
  - intros ->. simpl in Hs. apply strip_head in Hs. discriminate.
  - intros ->. unfold strip in Hs.
    assert (E : rstrip (lstrip l)
                = (a ++ tab ++ b ++ tab ++ c) ++ String TAB "").
    { rewrite Hs. unfold tab. rewrite !string_app_assoc. reflexivity. }
    apply rstrip_last in E. discriminate.
Qed.

Lemma all_chars_app (cls : ascii -> bool) (x y : string) :
  all_chars cls (x ++ y) = all_chars cls x && all_chars cls y.
Proof.
  induction x as [|c x IH]; simpl; [reflexivity|].
  rewrite IH, andb_assoc. reflexivity.
Qed.

Lemma digit_not_space (c : ascii) : is_digit c = true -> is_space c = false.
Proof.
  unfold is_digit, is_space. intros H. apply andb_prop in H.
  destruct H as [H1 H2]. apply Nat.leb_le in H1, H2.
  apply orb_false_intro; apply andb_false_iff.
  - right. apply Nat.leb_gt. lia.
  - right. apply Nat.leb_gt. lia.
Qed.

Lemma string_exists_last (s : string) :
  s <> "" -> exists x e, s = x ++ String e "".
Proof.
  induction s as [|c s IH]; intros H; [contradiction|].
  destruct s as [|d s].
  - exists "", c. reflexivity.
  - destruct IH as [x [e E]]; [discriminate|].
    exists (String c x), e. simpl. rewrite <- E. reflexivity.
Qed.

Lemma rstrip_snoc_space (x : string) (c : ascii) :
  is_space c = true -> rstrip (x ++ String c "") = rstrip x.
Proof.
  intros Hc. induction x as [|d x IH]; simpl.
  - rewrite Hc. reflexivity.
  - rewrite IH. reflexivity.
Qed.

Lemma rstrip_id (x : string) (c : ascii) :
  is_space c = false -> rstrip (x ++ String c "") = x ++ String c "".
Proof.
  intros Hc. induction x as [|d x IH]; simpl.
  - rewrite Hc. reflexivity.
  - rewrite IH. destruct x; reflexivity.
Qed.

Lemma strip_trailing_tab (a1 e : ascii) (x : string) :
  is_space a1 = false -> is_space e = false ->
  strip (String a1 (x ++ String e (String TAB "")))
  = String a1 (x ++ String e "").
Proof.
  intros Ha He. unfold strip. simpl lstrip. rewrite Ha.
  change (String a1 (x ++ String e (String TAB "")))
    with (String a1 x ++ String e (String TAB "")).
  replace (String a1 x ++ String e (String TAB ""))
    with ((String a1 x ++ String e "") ++ String TAB "")
    by (rewrite string_app_assoc; reflexivity).
  rewrite rstrip_snoc_space by reflexivity.
  apply (rstrip_id (String a1 x) e He).
Qed.

(** Two readings of one string as digits, a tab and a rest agree. *)
Lemma digits_tab_split :
  forall x y u v,
    all_chars is_digit x = true -> all_chars is_digit y = true ->
    x ++ tab ++ u = y ++ tab ++ v -> x = y /\ u = v.
Proof.
  induction x as [|p x IH]; intros [|q y] u v Dx Dy Huv; simpl in *.
  - inversion Huv. auto.
  - inversion Huv; subst q. discriminate.
  - inversion Huv; subst p. discriminate.
  - inversion Huv; subst q. apply andb_prop in Dx, Dy.
    destruct (IH y u v (proj2 Dx) (proj2 Dy) H1) as [-> ->]. auto.
Qed.

(** X5: a line counts as an increment line only if, without the
    whitespace around it, it is three runs of digits, each followed by
    a tab, and then something more, and the first number is never
    empty.  A line of three numbers that ends with the third tab is
    not an increment line, because [strip] takes that tab away. *)
Theorem increment_line_needs_fourth_field :
  (forall l gs,
      Re.rmatch re_increments (strip l) = Some gs ->
      exists a b c rest,
        gs = [a; b; c]
        /\ strip l = a ++ tab ++ b ++ tab ++ c ++ tab ++ rest
        /\ all_chars is_digit a = true /\ all_chars is_digit b = true
        /\ all_chars is_digit c = true
        /\ a <> "" /\ rest <> "")
  /\ (forall a b c,
         all_chars is_digit a = true -> all_chars is_digit b = true ->
         all_chars is_digit c = true -> a <> "" -> c <> "" ->
         Re.rmatch re_increments (strip (a ++ tab ++ b ++ tab ++ c ++ tab))
         = None).
Proof.
  split; [apply increment_line_fields|].
  intros a b c Da Db Dc Ha Hc.
  assert (Hs : strip (a ++ tab ++ b ++ tab ++ c ++ tab)
               = a ++ tab ++ b ++ tab ++ c).
  { destruct a as [|a1 a]; [contradiction|].
    simpl in Da. apply andb_prop in Da. destruct Da as [Da1 Da].
    destruct (string_exists_last c Hc) as [c0 [e ->]].
    rewrite all_chars_app in Dc. apply andb_prop in Dc.
    destruct Dc as [_ De]. simpl in De. rewrite andb_true_r in De.
    replace (String a1 a ++ tab ++ b ++ tab ++ (c0 ++ String e "") ++ tab)
      with (String a1 ((a ++ tab ++ b ++ tab ++ c0)
                         ++ String e (String TAB "")))
      by (unfold tab; simpl; repeat (rewrite string_app_assoc; simpl);
          reflexivity).
    rewrite strip_trailing_tab by (apply digit_not_space; assumption).
    unfold tab. simpl. repeat (rewrite string_app_assoc; simpl).
    reflexivity. }
  destruct (Re.rmatch re_increments
              (strip (a ++ tab ++ b ++ tab ++ c ++ tab))) as [gs|] eqn:E;
    [|reflexivity].
  exfalso.
  destruct (increment_line_fields _ _ E)
    as [a' [b' [c' [rest [_ [Hs' [Da' [Db' [Dc' _]]]]]]]]].
  rewrite Hs in Hs'.
  destruct (digits_tab_split _ _ _ _ Da Da' Hs') as [_ H1].
  destruct (digits_tab_split _ _ _ _ Db Db' H1) as [_ H2].
  rewrite H2, all_chars_app in Dc. apply andb_prop in Dc.
  destruct Dc as [_ Dc]. simpl in Dc. discriminate.
Qed.

Lemma increment_line_needs_fourth_field_witness :
  Re.rmatch re_increments (strip ("1" ++ tab ++ "10" ++ tab ++ "5" ++ tab))
  = None.
Proof.
  apply (proj2 increment_line_needs_fourth_field "1" "10" "5");
    try reflexivity; discriminate.
Defined.

Local Open Scope list_scope.

Lemma float_of_digits_value (s : string) :
  s <> "" -> float_of_digits s = Ok (Qc_of_Z (digits_value 0 s)).
Proof. destruct s; [contradiction|reflexivity]. Qed.

Lemma increments_loop_value_error (bad : string) (rest : list string)
  (a b c : string) :
  Re.rmatch re_increments (strip bad) = Some [a; b; c] ->
  b = "" \/ c = "" ->
  forall good t j,
    (forall l, In l good ->
               exists a' b' c',
                 Re.rmatch re_increments (strip l) = Some [a'; b'; c']
                 /\ b' <> "" /\ c' <> "") ->
    increments_loop (good ++ bad :: rest) t j = Raise ValueError.
Proof.
  intros Hbad Hempty. induction good as [|l good IH]; intros t j Hgood.
  - simpl. rewrite Hbad, (findall0_of_rmatch _ _ _ Hbad). simpl.
    destruct (increment_line_fields _ _ Hbad)
      as [a0 [b0 [c0 [r0 [Hg [_ [_ [_ [_ [Ha _]]]]]]]]]].
    inversion Hg; subst a0 b0 c0.
    rewrite (float_of_digits_value a Ha). simpl.
    destruct Hempty as [->| ->]; simpl; [reflexivity|].
    destruct b; reflexivity.
  - simpl. destruct (Hgood l (or_introl eq_refl)) as [a' [b' [c' [E [Hb Hc]]]]].
    rewrite E, (findall0_of_rmatch _ _ _ E). simpl.
    destruct (increment_line_fields _ _ E)
      as [a0 [b0 [c0 [r0 [Hg [_ [_ [_ [_ [Ha _]]]]]]]]]].
    inversion Hg; subst a0 b0 c0.
    rewrite (float_of_digits_value a' Ha), (float_of_digits_value b' Hb),
      (float_of_digits_value c' Hc). simpl.
    apply IH. intros l' Hl'. apply Hgood. right. exact Hl'.
Qed.

(** X6: the numbers of an increment line may be empty strings of
    digits, but [float] does not read the empty string: when, after
    increment lines with all their numbers, a run meets an increment
    line whose counts or increments field is empty, nothing is
    returned, and the exception is a [ValueError] whenever the parse
    gets that far. *)
Theorem empty_number_is_value_error (methods : list string)
  (logf : list string) (i : nat) (line : string) (good : list string)
  (bad : string) (rest : list string) (a b c : string) :
  nth_error logf i = Some line -> is_run_start methods line = true ->
  skipn (i + 4) logf = good ++ bad :: rest ->
  (forall l, In l good ->
             exists a' b' c',
               Re.rmatch re_increments (strip l) = Some [a'; b'; c']
               /\ b' <> "" /\ c' <> "") ->
  Re.rmatch re_increments (strip bad) = Some [a; b; c] ->
  b = "" \/ c = "" ->
  is_ok (read_logfile methods logf) = false
  /\ (runs_before_parse methods logf i ->
      is_ok (run_datetime line) = true ->
      is_ok (sample_name logf i) = true ->
      read_logfile methods logf = Raise ValueError).
Proof.
  intros Hi Hs Hskip Hgood Hbad Hempty.
  destruct (parse_run_unfold methods logf i line Hs) as [meth Hp].
  pose proof (increments_loop_value_error bad rest a b c Hbad Hempty
                good seed_table 4 Hgood) as Hloop.
  rewrite <- Hskip in Hloop. split.
  - apply (read_logfile_not_ok _ _ _ _ Hi Hs). rewrite Hp.
    destruct (run_datetime line); [|reflexivity]. simpl.
    destruct (sample_name logf i); [|reflexivity]. simpl.
    rewrite Hloop. reflexivity.
  - intros Hbefore Hdt Hname.
    apply (read_logfile_raise_first _ _ _ _ _ Hi Hs); [|exact Hbefore].
    rewrite Hp. destruct (run_datetime line); [|discriminate]. simpl.
    destruct (sample_name logf i); [|discriminate]. simpl.
    rewrite Hloop. reflexivity.
Qed.

Lemma empty_number_is_value_error_witness :
  read_logfile default_methods logfile_empty_counts = Raise ValueError.
Proof.
  destruct (empty_number_is_value_error default_methods logfile_empty_counts
              0 run_start_line
              ["1" ++ tab ++ "10" ++ tab ++ "5" ++ tab ++ "7"]%string
              ("2" ++ tab ++ tab ++ "20" ++ tab ++ "7")%string ["end of run"]
              "2" "" "20") as [_ T].
  - reflexivity.
  - vm_compute. reflexivity.
  - reflexivity.
  - intros l [<-|[]]. exists "1"%string, "10"%string, "5"%string.
    split; [vm_compute; reflexivity|]. split; discriminate.
  - vm_compute. reflexivity.
  - left. reflexivity.
  - apply T.
    + intros k l Hk. lia.
    + vm_compute. reflexivity.
    + vm_compute. reflexivity.
Defined.

(** *** The rows of the table *)

Lemma increments_loop_lines :
  forall rest t j t' j',
    increments_loop rest t j = Ok (t', j') ->
    exists ms cs incs,
      minutes t' = minutes t ++ ms /\ counts t' = counts t ++ cs
      /\ increments t' = increments t ++ incs
      /\ length ms = length cs /\ length cs = length incs
      /\ j' = j + length ms
      /\ forall k, k < length ms ->
           exists l a b c,
             nth_error rest k = Some l
             /\ Re.rmatch re_increments (strip l) = Some [a; b; c]
             /\ nth_error ms k = Some (Qc_of_Z (digits_value 0 a))
             /\ nth_error cs k = Some (Qc_of_Z (digits_value 0 b))
             /\ nth_error incs k = Some (Qc_of_Z (digits_value 0 c)).
Proof.
  induction rest as [|l rest IH]; intros t j t' j' H; simpl in H.
  - discriminate.
  - destruct (Re.rmatch re_increments (strip l)) as [gs|] eqn:E; simpl in H.
    + destruct (increment_line_fields _ _ E)
        as [a [b [c [r0 [-> [_ [_ [_ [_ [Ha _]]]]]]]]]].
      rewrite (findall0_of_rmatch _ _ _ E) in H. simpl in H.
      rewrite (float_of_digits_value a Ha) in H. simpl in H.
      destruct b as [|b1 b]; [discriminate|]. simpl in H.
      destruct c as [|c1 c]; [discriminate|]. simpl in H.
      destruct (IH _ _ _ _ H) as [ms [cs [incs [H1 [H2 [H3 [H4 [H5 [H6 H7]]]]]]]]].
      simpl in H1, H2, H3.
      exists (Qc_of_Z (digits_value 0 a) :: ms),
        (Qc_of_Z (digits_value 0 (String b1 b)) :: cs),
        (Qc_of_Z (digits_value 0 (String c1 c)) :: incs).
      rewrite H1, H2, H3, <- !app_assoc. simpl.
      repeat split; try congruence; try lia.
      intros [|k] Hk.
      * exists l, a, (String b1 b), (String c1 c). simpl. auto.
      * destruct (H7 k) as [l' [a' [b' [c' Hl']]]]; [lia|].
        exists l', a', b', c'. exact Hl'.
    + inversion H; subst.
      exists [], [], []. rewrite !app_nil_r. simpl.
      repeat split; try (intros; lia).
Qed.

(** X7: the increment table of a returned run is the seed row
    followed by one row per increment line, in file order: row [k+1]
    holds the three numbers of line [i+4+k], where [i] is the run-start
    line; the three arrays have one length, and [runtime] is the number
    of increment lines. *)
Theorem table_rows_are_increment_lines (methods : list string)
  (logf : list string) (rs : list run) (r : run) :
  read_logfile methods logf = Ok rs -> In r rs ->
  exists n,
    runtime r = Qc_of_nat n
    /\ length (minutes (table_of r)) = S n
    /\ in_step (table_of r)
    /\ forall k, k < n ->
         exists l a b c,
           nth_error logf (logfileline r + 4 + k) = Some l
           /\ Re.rmatch re_increments (strip l) = Some [a; b; c]
           /\ table_row (table_of r) (S k)
              = Some (Qc_of_Z (digits_value 0 a), Qc_of_Z (digits_value 0 b),
                      Qc_of_Z (digits_value 0 c)).
Proof.
  intros H Hin.
  destruct (read_logfile_ok_inv _ _ _ _ H Hin) as [i [line [Hi [Hs Hp]]]].
  apply parse_run_ok_inv in Hp.
  destruct Hp as [dt [nm [t [j [tc [_ [_ [Hloop [_ [Hl [_ [_ [Ht [_ Hr]]]]]]]]]]]]]].
  destruct (increments_loop_lines _ _ _ _ _ Hloop)
    as [ms [cs [incs [H1 [H2 [H3 [H4 [H5 [H6 H7]]]]]]]]].
  simpl in H1, H2, H3. exists (length ms). rewrite Ht, Hl.
  split; [rewrite Hr; f_equal; lia|]. split; [rewrite H1; reflexivity|].
  split; [unfold in_step; rewrite H1, H2, H3; simpl; lia|].
  intros k Hk. destruct (H7 k Hk) as [l [a [b [c [Hn [Hm [Ea [Eb Ec]]]]]]]].
  exists l, a, b, c. rewrite nth_error_skipn in Hn.
  split; [exact Hn|]. split; [exact Hm|].
  unfold table_row. rewrite H1, H2, H3. simpl. rewrite Ea, Eb, Ec.
  reflexivity.
Qed.

Lemma table_rows_are_increment_lines_witness :
  exists n,
    runtime run_two_increments = Qc_of_nat n
    /\ length (minutes (table_of run_two_increments)) = S n
    /\ in_step (table_of run_two_increments)
    /\ forall k, k < n ->
         exists l a b c,
           nth_error logfile_two_increments
             (logfileline run_two_increments + 4 + k) = Some l
           /\ Re.rmatch re_increments (strip l) = Some [a; b; c]
           /\ table_row (table_of run_two_increments) (S k)
              = Some (Qc_of_Z (digits_value 0 a), Qc_of_Z (digits_value 0 b),
                      Qc_of_Z (digits_value 0 c)).
Proof.
  apply (table_rows_are_increment_lines default_methods
           logfile_two_increments [run_two_increments]).
  - vm_compute. reflexivity.
  - simpl. auto.
Defined.

(** *** More on the matcher and the blanks *)



Lemma iloc_position (logfile : list run) (k : nat) (r : run) :
  nth_error logfile k = Some r -> iloc logfile (Int (Z.of_nat k)) = Ok r.
Proof.
  intros H. unfold iloc.
  assert (Hk : k < length logfile) by (apply nth_error_Some; congruence).
  destruct ((- Z.of_nat (length logfile) <=? Z.of_nat k)%Z
            && (Z.of_nat k <? Z.of_nat (length logfile))%Z) eqn:E.
  - destruct (Z.of_nat k <? 0)%Z eqn:E0; [apply Z.ltb_lt in E0; lia|].
    rewrite Nat2Z.id. unfold getitem. rewrite H. reflexivity.
  - apply andb_false_iff in E. destruct E as [E|E].
    + apply Z.leb_gt in E. lia.
    + apply Z.ltb_ge in E. lia.
Qed.



(** X9: the two assertions of [_get_blanks] come before the lookup
    and in this order: on a manifest without the column
    [logfile_iloc], [get_blanks] fails the first one whatever the
    cutoff; with the column, a cutoff that is not above zero fails the
    second one whatever the cell of the first row, [nan] included.
    They sit in the row function, so an empty manifest passes both. *)
Theorem get_blanks_assertions (logfile : list run) (usefrom : Qc)
  (x : dbs_row) (rest : list dbs_row) :
  (logfile_iloc x = None ->
   get_blanks (x :: rest) logfile usefrom
   = Raise (AssertionError "You must first run `ks.vindta.logfile2dbs()`."))
  /\ (logfile_iloc x <> None -> ~ (0 < usefrom)%Qc ->
      get_blanks (x :: rest) logfile usefrom
      = Raise (AssertionError "`usefrom` must be positive."))
  /\ get_blanks [] logfile usefrom = Ok [].
Proof.
  split; [|split].
  - intros H. unfold get_blanks, _get_blanks. simpl. rewrite H. reflexivity.
  - intros H Hneg. unfold get_blanks, _get_blanks. simpl.
    destruct (logfile_iloc x) as [c|]; [|contradiction].
    destruct (Qc_ltb 0 usefrom) eqn:E; [|reflexivity].
    apply Qc_ltb_true in E. contradiction.
  - reflexivity.
Qed.

Lemma get_blanks_assertions_witness :
  get_blanks [dbs_std1] two_runs default_usefrom
  = Raise (AssertionError "You must first run `ks.vindta.logfile2dbs()`.")
  /\ get_blanks [set_logfile_iloc dbs_planned Nan] two_runs 0%Qc
     = Raise (AssertionError "`usefrom` must be positive.").
Proof.
  split.
  - apply (proj1 (get_blanks_assertions two_runs default_usefrom dbs_std1 [])).
    reflexivity.
  - apply (proj1 (proj2 (get_blanks_assertions two_runs 0%Qc
                           (set_logfile_iloc dbs_planned Nan) []))).
    + discriminate.
    + apply Qclt_irrefl.
Defined.

(** X10: the three functions in a row.  For a logfile that
    [read_logfile] returned and a manifest each of whose rows has
    exactly one run with its bottle and date, [logfile2dbs] and then
    [get_blanks] with a cutoff above zero return, and every row comes
    with the mean of the increments from the cutoff on of a run that
    has its bottle and date. *)
Theorem blanks_of_parsed_logfile (methods : list string) (logf : list string)
  (logfile : list run) (dbs : list dbs_row) (usefrom : Qc) :
  read_logfile methods logf = Ok logfile ->
  (forall x, In x dbs -> exists k, unique_match x logfile k) ->
  (0 < usefrom)%Qc ->
  exists dbs' out,
    logfile2dbs dbs logfile = Ok dbs'
    /\ get_blanks dbs' logfile usefrom = Ok out
    /\ map fst out = dbs' /\ length dbs' = length dbs
    /\ forall x' b,
        In (x', b) out ->
        exists r,
          In r logfile
          /\ bottle r = dbs_bottle x'
          /\ analysisdate r = dbs_analysisdate x'
          /\ b = np_mean (increments_from usefrom (table_of r)).
Proof.
  intros Hread Hall Hpos.
  set (cell_of := fun x => match _logfile2dbs x logfile with
                           | Ok c => c
                           | Raise _ => Nan
                           end).
  set (blank_of := fun x => match _get_blanks x logfile usefrom with
                            | Ok b => b
                            | Raise _ => NaN
                            end).
  assert (Hrow : forall x, In x dbs ->
             exists k r,
               cell_of x = Int (Z.of_nat k)
               /\ _logfile2dbs x logfile = Ok (cell_of x)
               /\ nth_error logfile k = Some r /\ matches_run x r).
  { intros x Hx. destruct (Hall x Hx) as [k Hk].
    pose proof Hk as [[r [Hn Hm]] _]. exists k, r.
    assert (E : _logfile2dbs x logfile = Ok (Int (Z.of_nat k))).
    { unfold _logfile2dbs.
      assert (Hb : existsb (String.eqb (dbs_bottle x)) (map bottle logfile)
                   = true).
      { apply bottle_in_logfile. destruct Hm as [Hb _]. rewrite <- Hb.
        apply in_map. apply nth_error_In with (n := k). exact Hn. }
      rewrite Hb. apply where_unique_match in Hk. rewrite Hk. reflexivity. }
    unfold cell_of. rewrite E. auto. }
  exists (map (fun x => set_logfile_iloc x (cell_of x)) dbs).
  assert (Hblank : forall x, In x dbs ->
             exists r,
               In r logfile /\ matches_run x r
               /\ _get_blanks (set_logfile_iloc x (cell_of x)) logfile usefrom
                  = Ok (np_mean (increments_from usefrom (table_of r)))).
  { intros x Hx. destruct (Hrow x Hx) as [k [r [Hc [_ [Hn Hm]]]]].
    exists r. split; [apply nth_error_In with (n := k); exact Hn|].
    split; [exact Hm|].
    apply (get_blanks_row _ logfile usefrom (Int (Z.of_nat k)) r).
    - simpl. rewrite Hc. reflexivity.
    - apply iloc_position, Hn.
    - exact Hpos.
    - apply (parsed_runs_in_step methods logf logfile r Hread).
      apply nth_error_In with (n := k). exact Hn. }
  exists (map (fun x' => (x', blank_of x'))
            (map (fun x => set_logfile_iloc x (cell_of x)) dbs)).
  split; [|split; [|split; [|split]]].
  - unfold logfile2dbs. apply mapM_ok. intros x Hx.
    destruct (Hrow x Hx) as [k [r [_ [E _]]]]. rewrite E. reflexivity.
  - unfold get_blanks. apply mapM_ok. intros x' Hx'.
    apply in_map_iff in Hx'. destruct Hx' as [x [<- Hx]].
    destruct (Hblank x Hx) as [r [_ [_ E]]]. unfold blank_of.
    rewrite E. reflexivity.
  - rewrite map_map. simpl. apply map_id.
  - apply length_map.
  - intros x' b Hin. apply in_map_iff in Hin.
    destruct Hin as [y [Heq Hy]]. inversion Heq; subst y b.
    apply in_map_iff in Hy. destruct Hy as [x [<- Hx]].
    destruct (Hblank x Hx) as [r [Hr [[Hb Hd] E]]].
    exists r. unfold blank_of. rewrite E. simpl. auto.
Qed.

Lemma blanks_of_parsed_logfile_witness :
  exists dbs' out,
    logfile2dbs [dbs_std1] [run_two_increments] = Ok dbs'
    /\ get_blanks dbs' [run_two_increments] (Qc_of_nat 2) = Ok out
    /\ map fst out = dbs' /\ length dbs' = length [dbs_std1]
    /\ forall x' b,
        In (x', b) out ->
        exists r,
          In r [run_two_increments]
          /\ bottle r = dbs_bottle x'
          /\ analysisdate r = dbs_analysisdate x'
          /\ b = np_mean (increments_from (Qc_of_nat 2) (table_of r)).
Proof.
  apply (blanks_of_parsed_logfile default_methods logfile_two_increments).
  - vm_compute. reflexivity.
  - intros x [<-|[]]. exists 0. split.
    + exists run_two_increments. repeat split.
    + intros [|[|k']] r' Hn _; simpl in Hn; try discriminate; reflexivity.
  - reflexivity.
Defined.

(** X11: the seed row is never part of a blank: for a returned run
    and a cutoff above zero, the increments from the cutoff on are
    those of the rows after the first; so the blank of a run without
    increment line is [nan]. *)
Theorem seed_row_is_not_in_blank (methods : list string) (logf : list string)
  (rs : list run) (r : run) (usefrom : Qc) :
  read_logfile methods logf = Ok rs -> In r rs -> (0 < usefrom)%Qc ->
  increments_from usefrom (table_of r)
  = map (fun row => snd row)
      (filter (fun row => Qc_leb usefrom (fst (fst row)))
         (tl (table_rows (table_of r))))
  /\ (runtime r = 0%Qc ->
      forall x c,
        logfile_iloc x = Some c -> iloc rs c = Ok r ->
        _get_blanks x rs usefrom = Ok NaN).
Proof.
  intros H Hin Hpos.
  destruct (read_logfile_ok_inv _ _ _ _ H Hin) as [i [line [_ [_ Hp]]]].
  destruct (parsed_table_shape _ _ _ _ _ Hp)
    as [ms [cs [incs [Hm [Hc [Hinc [L1 [L2 [_ Hr]]]]]]]]].
  assert (Hseed : Qc_leb usefrom (Qc_of_nat 0) = false)
    by (apply Qc_leb_false; exact Hpos).
  assert (E : increments_from usefrom (table_of r)
              = map (fun row => snd row)
                  (filter (fun row => Qc_leb usefrom (fst (fst row)))
                     (tl (table_rows (table_of r))))).
  { unfold increments_from, table_rows. rewrite Hm, Hc, Hinc. simpl.
    rewrite Hseed. reflexivity. }
  split; [exact E|]. intros H0 x c Hx Hloc.
  rewrite (get_blanks_row x rs usefrom c r Hx Hloc Hpos
             (parsed_runs_in_step _ _ _ _ H Hin)).
  rewrite E. unfold table_rows. rewrite Hm, Hc, Hinc.
  destruct ms as [|m ms].
  - destruct cs; [|discriminate]. destruct incs; [|discriminate]. reflexivity.
  - exfalso. rewrite Hr in H0. apply (Qc_of_nat_pos (length (m :: ms))).
    + simpl. lia.
    + exact H0.
Qed.

Lemma seed_row_is_not_in_blank_witness :
  _get_blanks (set_logfile_iloc dbs_std1 (Int 0)) [run_no_increment]
    default_usefrom = Ok NaN.
Proof.
  destruct (seed_row_is_not_in_blank default_methods logfile_no_increment
              [run_no_increment] run_no_increment default_usefrom)
    as [_ T].
  - vm_compute. reflexivity.
  - simpl. auto.
  - reflexivity.
  - apply (T eq_refl _ (Int 0)); reflexivity.
Defined.

(** *** The date of a manifest row *)

Local Open Scope string_scope.

Lemma split_on_free (p : string) :
  all_chars not_slash p = true -> split_on "/" p = [p].
Proof.
  induction p as [|c p IH]; simpl; [reflexivity|]. intros H.
  apply andb_prop in H. destruct H as [Hc Hp].
  unfold not_slash in Hc. apply negb_true_iff in Hc. rewrite Hc, (IH Hp).
  reflexivity.
Qed.

Lemma split_on_cons (p s : string) :
  all_chars not_slash p = true ->
  split_on "/" (p ++ String "/" s) = p :: split_on "/" s.
Proof.
  induction p as [|c p IH]; simpl; [reflexivity|]. intros H.
  apply andb_prop in H. destruct H as [Hc Hp].
  unfold not_slash in Hc. apply negb_true_iff in Hc. rewrite Hc, (IH Hp).
  reflexivity.
Qed.

Lemma digits_not_slash (s : string) :
  all_chars is_digit s = true -> all_chars not_slash s = true.
Proof.
  induction s as [|c s IH]; simpl; [reflexivity|]. intros H.
  apply andb_prop in H. destruct H as [Hc Hs]. rewrite (IH Hs), andb_true_r.
  unfold not_slash. apply negb_true_iff. destruct (Ascii.eqb c "/") eqn:E;
    [|reflexivity].
  apply Ascii.eqb_eq in E. subst c. discriminate.
Qed.

(** X12: [_dbs_datetime] reads the date as month, day and year
    between slashes: a date with fewer than two slashes raises an
    [IndexError] before anything is parsed, and what follows a third
    slash is ignored; otherwise the string handed to [np.datetime64]
    is [20YY-MM-DD], a [T] and the time as it stands. *)
Theorem dbs_date_needs_two_slashes (parse : string -> result datetime64)
  (m d y time : string) :
  all_chars not_slash m = true -> all_chars not_slash d = true ->
  all_chars not_slash y = true ->
  _dbs_datetime parse m time = Raise IndexError
  /\ _dbs_datetime parse (m ++ "/" ++ d) time = Raise IndexError
  /\ _dbs_datetime parse (m ++ "/" ++ d ++ "/" ++ y) time
     = parse ("20" ++ y ++ "-" ++ m ++ "-" ++ d ++ "T" ++ time)
  /\ forall more,
      _dbs_datetime parse (m ++ "/" ++ d ++ "/" ++ y ++ "/" ++ more) time
      = parse ("20" ++ y ++ "-" ++ m ++ "-" ++ d ++ "T" ++ time).
Proof.
  intros Hm Hd Hy. unfold _dbs_datetime. cbn [append]. repeat split.
  - rewrite (split_on_free m Hm). reflexivity.
  - rewrite (split_on_cons m _ Hm), (split_on_free d Hd). reflexivity.
  - rewrite (split_on_cons m _ Hm), (split_on_cons d _ Hd),
      (split_on_free y Hy). reflexivity.
  - intros more.
    rewrite (split_on_cons m _ Hm), (split_on_cons d _ Hd),
      (split_on_cons y _ Hy). reflexivity.
Qed.

Lemma dbs_date_needs_two_slashes_witness :
  _dbs_datetime np_datetime64 "01-02-19" "10:30" = Raise IndexError
  /\ _dbs_datetime np_datetime64 "01/02/19" "10:30"
     = Ok (mkDatetime 2019 1 2 10 30).
Proof.
  destruct (dbs_date_needs_two_slashes np_datetime64 "01-02-19" "" "" "10:30")
    as [H1 _]; try reflexivity.
  destruct (dbs_date_needs_two_slashes np_datetime64 "01" "02" "19" "10:30")
    as [_ [_ [H3 _]]]; try reflexivity.
  split; [exact H1|]. etransitivity; [exact H3|]. vm_compute. reflexivity.
Defined.

Lemma run_datetime_fields (line : string) (dt : datetime64) :
  run_datetime line = Ok dt ->
  exists pre mm dd yy hh mi rest,
    line = pre ++ "started " ++ mm ++ "/" ++ dd ++ "/" ++ yy ++ "  " ++ hh
             ++ ":" ++ mi ++ rest
    /\ Forall (fun g => String.length g = 2 /\ all_chars is_digit g = true)
         [mm; dd; yy; hh; mi]
    /\ np_datetime64
         ("20" ++ yy ++ "-" ++ mm ++ "-" ++ dd ++ "T" ++ hh ++ ":" ++ mi)
       = Ok dt.
Proof.
  unfold run_datetime, Re.findall0. intros H.
  destruct (Re.search re_datetime line) as [ldt|] eqn:E; [|discriminate].
  simpl in H. destruct (search_sound _ _ _ E) as [pre [suf [-> Hm]]].
  destruct (rmatch_datetime_sound _ _ Hm)
    as [mm [dd [yy [hh [mi [rest [-> [-> HF]]]]]]]].
  cbn [nth] in H. exists pre, mm, dd, yy, hh, mi, rest. auto.
Qed.

(** X13: the manifest and the logfile agree on dates: when
    [read_logfile] reads the date of a run from
    [started MM/DD/YY  HH:MM], a manifest row with the date [MM/DD/YY]
    and the time [HH:MM] gets the same timestamp from [_dbs_datetime],
    which is what the matcher compares. *)
Theorem manifest_date_agrees_with_logfile (line : string) (dt : datetime64) :
  run_datetime line = Ok dt ->
  exists pre mm dd yy hh mi rest,
    line = pre ++ "started " ++ mm ++ "/" ++ dd ++ "/" ++ yy ++ "  " ++ hh
             ++ ":" ++ mi ++ rest
    /\ _dbs_datetime np_datetime64 (mm ++ "/" ++ dd ++ "/" ++ yy)
         (hh ++ ":" ++ mi)
       = Ok dt.
Proof.
  intros H. destruct (run_datetime_fields _ _ H)
    as [pre [mm [dd [yy [hh [mi [rest [Hline [HF Hdt]]]]]]]]].
  exists pre, mm, dd, yy, hh, mi, rest. split; [exact Hline|].
  inversion HF as [|? ? [_ Dm] HF1]; subst.
  inversion HF1 as [|? ? [_ Dd] HF2]; subst.
  inversion HF2 as [|? ? [_ Dy] _]; subst.
  unfold _dbs_datetime. cbn [append].
  rewrite (split_on_cons mm _ (digits_not_slash _ Dm)),
    (split_on_cons dd _ (digits_not_slash _ Dd)),
    (split_on_free yy (digits_not_slash _ Dy)).
  simpl. exact Hdt.
Qed.

Lemma manifest_date_agrees_with_logfile_witness :
  exists pre mm dd yy hh mi rest,
    run_start_line
    = pre ++ "started " ++ mm ++ "/" ++ dd ++ "/" ++ yy ++ "  " ++ hh
        ++ ":" ++ mi ++ rest
    /\ _dbs_datetime np_datetime64 (mm ++ "/" ++ dd ++ "/" ++ yy)
         (hh ++ ":" ++ mi)
       = Ok (mkDatetime 2019 1 2 10 30).
Proof.
  apply (manifest_date_agrees_with_logfile run_start_line).
  vm_compute. reflexivity.
Defined.

End VindtaFacts.

(** * Properties of [koolstof.infrared.io] *)

Module InfraredFacts.

Import BaseFacts Infrared InfraredExamples.
Local Open Scope list_scope.

(** *** The segmenter *)

Lemma loc_own (dbs : list dbs_row) (row : dbs_row) :
  NoDup (map index dbs) -> In row dbs -> loc dbs (index row) = Ok row.
Proof.
  unfold loc. induction dbs as [|r dbs IH]; intros Hnd Hin; [destruct Hin|].
  simpl in Hnd. inversion Hnd as [|? ? Hnotin Hnd']; subst. simpl.
  destruct Hin as [->|Hin].
  - rewrite Z.eqb_refl. reflexivity.
  - destruct (Z.eqb (index r) (index row)) eqn:E.
    + apply Z.eqb_eq in E. exfalso. apply Hnotin. rewrite E.
      apply in_map, Hin.
    + apply IH; assumption.
Qed.

Lemma tag_loop_rows (dbs : list dbs_row) :
  forall (rows : list dbs_row) (licor : list licor_row),
    (forall row, In row rows -> loc dbs (index row) = Ok row) ->
    tag_loop (map index rows) dbs licor
    = Ok (map (fun r => mkLicor (datenum r)
                          (tag_after (datenum r) rows (dbs_ix r))) licor).
Proof.
  induction rows as [|row rows IH]; intros licor Hloc; simpl.
  - f_equal. symmetry. erewrite map_ext; [apply map_id|].
    intros [d tg]. reflexivity.
  - rewrite (Hloc row (or_introl eq_refl)). simpl.
    rewrite IH by (intros r' Hr'; apply Hloc; right; exact Hr').
    f_equal. unfold assign_dbs_ix. rewrite map_map. apply map_ext.
    intros [d tg]. simpl. destruct (Qc_leb (dbs_datenum row) d); reflexivity.
Qed.

Lemma tag_after_spec (t : Qc) :
  forall (rows : list dbs_row) (tag : npfloat),
    (exists k row, most_recent t rows k row
                   /\ tag_after t rows tag = Fin (Qc_of_Z (index row)))
    \/ ((forall row, In row rows -> (t < dbs_datenum row)%Qc)
        /\ tag_after t rows tag = tag).
Proof.
  induction rows as [|row rows IH]; intros tag; simpl.
  - right. split; [intros row []|reflexivity].
  - destruct (IH (if Qc_leb (dbs_datenum row) t
                  then Fin (Qc_of_Z (index row)) else tag))
      as [[k [row' [[Hk [Hle Hlater]] Htag]]]|[Hall Htag]].
    + left. exists (S k), row'. split; [|exact Htag].
      split; [exact Hk|]. split; [exact Hle|].
      intros [|k'] r' Hlt Hn; [lia|]. simpl in Hn.
      apply (Hlater k' r'); [lia|exact Hn].
    + destruct (Qc_leb (dbs_datenum row) t) eqn:E.
      * left. exists 0, row. split; [|exact Htag].
        split; [reflexivity|]. split; [apply Qc_leb_true, E|].
        intros [|k'] r' Hlt Hn; [lia|]. simpl in Hn.
        apply Hall. apply nth_error_In with (n := k'). exact Hn.
      * right. split; [|exact Htag]. intros r' [<-|Hr'].
        -- apply Qc_leb_false, E.
        -- apply Hall, Hr'.
Qed.

(** With the manifest in ascending order, a row gets a tag exactly
    when it is not before the first manifest row. *)
Lemma tagged_iff_reached_first (t : Qc) (first : dbs_row)
  (rest : list dbs_row) :
  StronglySorted by_datenum (first :: rest) ->
  isnan (tag_after t (first :: rest) NaN) = negb (Qc_leb (dbs_datenum first) t).
Proof.
  intros Hs.
  destruct (tag_after_spec t (first :: rest) NaN)
    as [[k [row [[Hk [Hle Hlater]] Htag]]]|[Hall Htag]].
  - rewrite Htag. simpl. symmetry. apply negb_false_iff, Qc_leb_true.
    destruct k as [|k]; simpl in Hk.
    + inversion Hk; subst row. exact Hle.
    + inversion Hs as [|? ? _ Hf]; subst.
      rewrite Forall_forall in Hf.
      apply Qcle_trans with (y := dbs_datenum row); [|exact Hle].
      apply Hf. apply nth_error_In with (n := k). exact Hk.
  - rewrite Htag. simpl. symmetry. apply negb_true_iff, Qc_leb_false.
    apply Hall. left. reflexivity.
Qed.

Lemma segment_rows (licor : list licor_row) (dbs : list dbs_row) :
  NoDup (map index dbs) ->
  get_licor_samples licor dbs
  = Ok (filter (fun r => negb (isnan (dbs_ix r)))
          (map (fun r => mkLicor (datenum r) (tag_after (datenum r) dbs NaN))
             licor)).
Proof.
  intros Hnd. unfold get_licor_samples.
  rewrite tag_loop_rows by (intros row Hrow; apply loc_own; assumption).
  simpl. rewrite map_map. reflexivity.
Qed.

(** C9: with the manifest in ascending order of time (and its labels
    distinct), [get_licor_samples] keeps, in their order, exactly the
    rows that are not before the first manifest time, and the tag of
    every row it keeps is the label of the last manifest row whose time
    the row has reached; a row at the very time of a manifest row that
    no later manifest row shares has the label of that row. *)
Theorem segmenter_tags_most_recent (licor : list licor_row)
  (dbs : list dbs_row) :
  NoDup (map index dbs) -> StronglySorted by_datenum dbs ->
  exists out,
    get_licor_samples licor dbs = Ok out
    /\ (forall first,
           hd_error dbs = Some first ->
           map datenum out
           = filter (fun t => Qc_leb (dbs_datenum first) t)
               (map datenum licor))
    /\ (forall r,
           In r out ->
           exists k row,
             most_recent (datenum r) dbs k row
             /\ dbs_ix r = Fin (Qc_of_Z (index row)))
    /\ (forall r k row,
           In r out -> nth_error dbs k = Some row ->
           datenum r = dbs_datenum row ->
           (forall k' row', k < k' -> nth_error dbs k' = Some row' ->
                            (dbs_datenum row < dbs_datenum row')%Qc) ->
           dbs_ix r = Fin (Qc_of_Z (index row))).
Proof.
  intros Hnd Hs. eexists. split; [apply segment_rows, Hnd|].
  assert (Htagged : forall r,
             In r (filter (fun r => negb (isnan (dbs_ix r)))
                     (map (fun r => mkLicor (datenum r)
                                      (tag_after (datenum r) dbs NaN))
                        licor)) ->
             exists k row,
               most_recent (datenum r) dbs k row
               /\ dbs_ix r = Fin (Qc_of_Z (index row))).
  { intros r Hr. apply filter_In in Hr. destruct Hr as [Hr Htag].
    apply in_map_iff in Hr. destruct Hr as [r0 [<- _]]. simpl in *.
    destruct (tag_after_spec (datenum r0) dbs NaN)
      as [[k [row [Hmr E]]]|[_ E]].
    - exists k, row. auto.
    - rewrite E in Htag. discriminate. }
  split; [|split].
  - intros first Hfirst. destruct dbs as [|f rest]; [discriminate|].
    simpl in Hfirst. inversion Hfirst; subst f.
    induction licor as [|r licor IH]; [reflexivity|].
    cbn [map filter]. cbn [dbs_ix datenum].
    rewrite (tagged_iff_reached_first _ _ _ Hs), negb_involutive.
    destruct (Qc_leb (dbs_datenum first) (datenum r)).
    + cbn [map datenum]. f_equal. apply IH.
      intros r' Hr'. apply Htagged. cbn [map filter]. cbn [dbs_ix datenum].
      destruct (negb (isnan (tag_after (datenum r) (first :: rest) NaN)));
        [right|]; exact Hr'.
    + apply IH.
      intros r' Hr'. apply Htagged. cbn [map filter]. cbn [dbs_ix datenum].
      destruct (negb (isnan (tag_after (datenum r) (first :: rest) NaN)));
        [right|]; exact Hr'.
  - exact Htagged.
  - intros r k row Hr Hk Heq Hlater.
    destruct (Htagged r Hr) as [k0 [row0 [[Hk0 [Hle0 Hlater0]] Htag]]].
    destruct (Nat.lt_trichotomy k k0) as [Hlt|[->|Hgt]].
    + exfalso. pose proof (Hlater k0 row0 Hlt Hk0) as H.
      rewrite <- Heq in H. apply (Qclt_not_le _ _ H Hle0).
    + rewrite Hk in Hk0. inversion Hk0; subst row0. exact Htag.
    + exfalso. pose proof (Hlater0 k row Hgt Hk) as H.
      rewrite Heq in H. apply (Qclt_not_le _ _ H). apply Qcle_refl.
Qed.

Lemma segmenter_tags_most_recent_witness :
  exists out,
    get_licor_samples licor_seven dbs_three = Ok out
    /\ map datenum out = map Qc_of_nat [2; 3; 4; 5; 6]
    /\ (forall r, In r out -> datenum r = Qc_of_nat 4 ->
                  dbs_ix r = Fin (Qc_of_Z 11)).
Proof.
  destruct (segmenter_tags_most_recent licor_seven dbs_three)
    as [out [Hout [Hkeep [_ Heq]]]].
  - repeat constructor; simpl; intuition discriminate.
  - repeat constructor; unfold by_datenum; simpl; discriminate.
  - exists out. split; [exact Hout|]. split.
    + rewrite (Hkeep (mkDbs 10 (Qc_of_nat 2)) eq_refl). reflexivity.
    + intros r Hr Ht.
      apply (Heq r 1 (mkDbs 11 (Qc_of_nat 4)) Hr eq_refl Ht).
      intros [|[|[|k']]] row' Hlt Hn; try lia; simpl in Hn.
      * inversion Hn; subst row'. reflexivity.
      * destruct k'; discriminate.
Defined.

Lemma segment_seven :
  get_licor_samples licor_seven dbs_three = Ok licor_seven_tagged.
Proof. vm_compute. reflexivity. Qed.

(** *** The resolution *)

Lemma unique_In (l : list Qc) (v : Qc) : In v (unique l) <-> In v l.
Proof.
  induction l as [|x l IH]; simpl; [tauto|]. rewrite filter_In, IH. split.
  - intros [H|[H _]]; auto.
  - intros [H|H]; [auto|].
    destruct (Qc_eq_dec x v) as [E|E]; [auto|]. right. split; [exact H|].
    apply negb_true_iff, Qc_eqb_neq, E.
Qed.

Lemma unique_In_1 (l : list Qc) (v : Qc) : In v (unique l) -> In v l.
Proof. apply unique_In. Qed.

Lemma unique_In_2 (l : list Qc) (v : Qc) : In v l -> In v (unique l).
Proof. apply unique_In. Qed.

Lemma unique_increasing (l : list Qc) :
  StronglySorted Qcle l -> StronglySorted Qclt (unique l).
Proof.
  induction 1 as [|x l Hs IH Hf]; simpl; [constructor|].
  constructor; [apply StronglySorted_filter, IH|].
  rewrite Forall_forall in *. intros v Hv. apply filter_In in Hv.
  destruct Hv as [Hv Hne]. apply unique_In_1 in Hv.
  apply negb_true_iff, Qc_eqb_neq in Hne.
  destruct (Qcle_lt_or_eq _ _ (Hf v Hv)) as [H|H]; [exact H|contradiction].
Qed.

Lemma unique_NoDup (l : list Qc) : NoDup (unique l).
Proof.
  induction l as [|x l IH]; simpl; [constructor|]. constructor.
  - rewrite filter_In. intros [_ H]. rewrite Qc_eqb_refl in H. discriminate.
  - apply NoDup_filter, IH.
Qed.

(** In an ascending list the last element is the largest. *)
Lemma sorted_le_last (l : list Qc) (v : Qc) :
  StronglySorted Qcle l -> In v l -> (v <= last l 0%Qc)%Qc.
Proof.
  intros Hs. revert v.
  induction Hs as [|x l Hs IH Hf]; intros v Hin; [destruct Hin|].
  destruct l as [|y l'].
  - destruct Hin as [->|[]]. simpl. apply Qcle_refl.
  - change (last (x :: y :: l') 0%Qc) with (last (y :: l') 0%Qc).
    destruct Hin as [<-|Hin]; [|apply IH, Hin].
    apply Qcle_trans with (y := y).
    + rewrite Forall_forall in Hf. apply Hf. left. reflexivity.
    + apply IH. left. reflexivity.
Qed.

Lemma sorted_first_le (l : list Qc) (v : Qc) :
  StronglySorted Qcle l -> In v l -> (hd 0%Qc l <= v)%Qc.
Proof.
  intros Hs Hin. destruct l as [|x l]; [destruct Hin|]. simpl.
  destruct Hin as [<-|Hin]; [apply Qcle_refl|].
  inversion Hs as [|? ? _ Hf]; subst. rewrite Forall_forall in Hf.
  apply Hf, Hin.
Qed.

Lemma last_In (l : list Qc) : l <> [] -> In (last l 0%Qc) l.
Proof.
  intros H. destruct (exists_last H) as [l' [x ->]].
  rewrite last_last. apply in_or_app. right. left. reflexivity.
Qed.

Lemma increasing_snoc (l : list Qc) (x v : Qc) :
  StronglySorted Qclt (l ++ [x]) -> In v l -> (v < x)%Qc.
Proof.
  induction l as [|y l IH]; intros Hs Hin; [destruct Hin|].
  simpl in Hs. inversion Hs as [|? ? Hs' Hf]; subst.
  destruct Hin as [<-|Hin]; [|apply IH; assumption].
  rewrite Forall_forall in Hf. apply Hf. apply in_or_app. right. left.
  reflexivity.
Qed.

Lemma Qclt_le_weak_sorted (l : list Qc) :
  StronglySorted Qclt l -> StronglySorted Qcle l.
Proof.
  induction 1 as [|x l Hs IH Hf]; constructor; [exact IH|].
  rewrite Forall_forall in *. intros v Hv. apply Qclt_le_weak, Hf, Hv.
Qed.

(** The distinct values of an ascending table with an interior row:
    the first timestamp, the interior values, the last timestamp. *)
Lemma unique_shape (d : list Qc) :
  StronglySorted Qcle d -> interior_rows d <> [] ->
  exists mid,
    unique d = first_time d :: mid ++ [last_time d]
    /\ mid <> []
    /\ NoDup mid
    /\ StronglySorted Qclt mid
    /\ forall v, In v mid <-> In v d /\ is_interior d v = true.
Proof.
  intros Hs Hrows.
  assert (Hv : exists v, In v d /\ is_interior d v = true).
  { destruct (interior_rows d) as [|v l] eqn:E; [contradiction|].
    exists v. apply filter_In. unfold interior_rows in E. rewrite E.
    left. reflexivity. }
  destruct Hv as [v [Hvd Hvi]].
  unfold is_interior in Hvi. apply andb_prop in Hvi.
  destruct Hvi as [Hlo Hhi]. apply Qc_ltb_true in Hlo, Hhi.
  pose proof (unique_increasing d Hs) as Hinc.
  pose proof (unique_NoDup d) as Hnd.
  destruct d as [|x d']; [destruct Hvd|].
  set (d := x :: d') in *.
  assert (Hu : unique d = x :: tl (unique d)) by reflexivity.
  assert (Hne : tl (unique d) <> []).
  { intros E. rewrite E in Hu.
    assert (Hin : In v (unique d)) by (apply unique_In_2; exact Hvd).
    rewrite Hu in Hin. destruct Hin as [<-|[]].
    apply (Qclt_irrefl x). exact Hlo. }
  destruct (exists_last Hne) as [mid [hi Hmid]].
  rewrite Hmid in Hu.
  assert (Hhi' : hi = last_time d).
  { apply Qcle_antisym.
    - apply sorted_le_last; [exact Hs|]. apply unique_In_1. rewrite Hu.
      right. apply in_or_app. right. left. reflexivity.
    - assert (Hin : In (last_time d) (unique d)).
      { apply unique_In_2. apply last_In. discriminate. }
      rewrite Hu in Hin. destruct Hin as [E|Hin].
      + exfalso. unfold last_time in E. fold (last_time d) in E.
        apply (Qclt_irrefl v). apply Qclt_trans with (y := last_time d).
        * exact Hhi.
        * rewrite <- E. exact Hlo.
      + apply in_app_or in Hin. destruct Hin as [Hin|[<-|[]]].
        * apply Qclt_le_weak. rewrite Hu in Hinc.
          inversion Hinc as [|? ? Hinc' _]; subst.
          apply (increasing_snoc mid hi _ Hinc' Hin).
        * apply Qcle_refl. }
  subst hi. rewrite Hu in Hinc, Hnd.
  inversion Hinc as [|? ? Hinc' Hf]; subst.
  inversion Hnd as [|? ? Hnotin Hnd']; subst.
  assert (Hmem : forall w, In w mid <-> In w d /\ is_interior d w = true).
  { intros w. split.
    - intros Hw. split.
      + apply unique_In_1. rewrite Hu. right. apply in_or_app. left. exact Hw.
      + unfold is_interior. apply andb_true_intro. split.
        * apply Qc_ltb_true. rewrite Forall_forall in Hf. apply Hf.
          apply in_or_app. left. exact Hw.
        * apply Qc_ltb_true. apply (increasing_snoc mid _ _ Hinc' Hw).
    - intros [Hw Hwi]. unfold is_interior in Hwi. apply andb_prop in Hwi.
      destruct Hwi as [Hwlo Hwhi]. apply Qc_ltb_true in Hwlo, Hwhi.
      apply unique_In_2 in Hw. rewrite Hu in Hw. destruct Hw as [E|Hw].
      + exfalso. apply (Qclt_irrefl w). rewrite <- E at 1. exact Hwlo.
      + apply in_app_or in Hw. destruct Hw as [Hw|[E|[]]]; [exact Hw|].
        exfalso. apply (Qclt_irrefl w). rewrite <- E at 2. exact Hwhi. }
  exists mid. split; [exact Hu|]. split; [|split; [|split]].
  - intros E. assert (Hin : In v mid) by (apply Hmem; split;
      [exact Hvd|unfold is_interior; apply andb_true_intro; split;
                 apply Qc_ltb_true; assumption]).
    rewrite E in Hin. destruct Hin.
  - rewrite <- (app_nil_r mid). apply NoDup_remove_1 with (a := last_time d).
    exact Hnd'.
  - clear -Hinc'. induction mid as [|m mid IH]; [constructor|].
    simpl in Hinc'. inversion Hinc' as [|? ? Hs Hf]; subst.
    constructor; [apply IH, Hs|]. rewrite Forall_forall in *.
    intros w Hw. apply Hf. apply in_or_app. left. exact Hw.
  - exact Hmem.
Qed.

(** An ascending table is its rows up to [lo], then the rows strictly
    between [lo] and [hi], then the rows from [hi] on. *)
Lemma sorted_three_parts (lo hi : Qc) (d : list Qc) :
  (lo < hi)%Qc -> StronglySorted Qcle d ->
  exists A B C,
    d = A ++ B ++ C
    /\ Forall (fun v => (v <= lo)%Qc) A
    /\ Forall (fun v => (lo < v)%Qc /\ (v < hi)%Qc) B
    /\ Forall (fun v => (hi <= v)%Qc) C.
Proof.
  intros Hlohi. induction 1 as [|x d Hs IH Hf].
  - exists [], [], []. repeat split; constructor.
  - destruct IH as [A [B [C [-> [HA [HB HC]]]]]].
    rewrite Forall_forall in Hf.
    destruct (Qclt_le_dec lo x) as [Hlo|Hlo].
    + assert (EA : A = []).
      { destruct A as [|a A]; [reflexivity|]. exfalso.
        inversion HA as [|? ? Ha _]; subst.
        apply (Qclt_not_le _ _ Hlo).
        apply Qcle_trans with (y := a); [|exact Ha].
        apply Hf. left. reflexivity. }
      subst A. destruct (Qclt_le_dec x hi) as [Hhi|Hhi].
      * exists [], (x :: B), C. repeat split; auto.
      * assert (EB : B = []).
        { destruct B as [|b B]; [reflexivity|]. exfalso.
          inversion HB as [|? ? [_ Hb] _]; subst.
          apply (Qclt_not_le _ _ Hb).
          apply Qcle_trans with (y := x); [exact Hhi|].
          apply Hf. left. reflexivity. }
        subst B. exists [], [], (x :: C). repeat split; auto.
    + exists (x :: A), B, C. repeat split; auto.
Qed.

(** Two ascending lists with the same elements, one of them strictly
    ascending, start and end with the same value. *)
Lemma same_ends (M B : list Qc) :
  StronglySorted Qclt M -> StronglySorted Qcle B ->
  (forall v, In v M <-> In v B) -> M <> [] ->
  hd 0%Qc M = hd 0%Qc B /\ last M 0%Qc = last B 0%Qc.
Proof.
  intros HM HB Hmem HMne.
  assert (HBne : B <> []).
  { intros ->. destruct M as [|m M]; [contradiction|].
    apply (Hmem m). left. reflexivity. }
  apply Qclt_le_weak_sorted in HM. split; apply Qcle_antisym.
  - apply sorted_first_le; [exact HM|]. apply Hmem.
    destruct B; [contradiction|]. left. reflexivity.
  - apply sorted_first_le; [exact HB|]. apply Hmem.
    destruct M; [contradiction|]. left. reflexivity.
  - apply sorted_le_last; [exact HB|]. apply Hmem. apply last_In, HMne.
  - apply sorted_le_last; [exact HM|]. apply Hmem. apply last_In, HBne.
Qed.

Lemma NoDup_same_length (M N : list Qc) :
  NoDup M -> NoDup N -> (forall v, In v M <-> In v N) -> length M = length N.
Proof.
  intros HM HN Hmem. apply Nat.le_antisymm.
  - apply NoDup_incl_length; [exact HM|]. intros v Hv. apply Hmem, Hv.
  - apply NoDup_incl_length; [exact HN|]. intros v Hv. apply Hmem, Hv.
Qed.


Lemma linspace_ideal (rate : nat) :
  1 <= rate ->
  linspace 0%Qc (1 - 1 / Qc_of_nat rate)%Qc rate = ideal_fractions rate.
Proof.
  intros Hr. unfold ideal_fractions. destruct rate as [|[|n]]; [lia| |].
  - simpl; f_equal; try (apply Qc_is_canon; reflexivity).
  - unfold linspace. cbv beta iota zeta.
    replace (S (S n) - 1) with (S n) by lia.
    rewrite (seq_S (S n) 0), map_app. cbn [map Nat.add].
    assert (Hr0 : Qc_of_nat (S (S n)) <> 0%Qc) by (apply Qc_of_nat_pos; lia).
    assert (Hn0 : Qc_of_nat (S n) <> 0%Qc) by (apply Qc_of_nat_pos; lia).
    pose proof (Qc_of_nat_S (S n)) as Er.
    f_equal.
    + apply map_ext. intros i. rewrite Er. field. split; [|exact Hn0].
      intros E. apply Hr0. rewrite Er. exact E.
    + f_equal. rewrite Er. field.
      intros E. apply Hr0. rewrite Er. exact E.
Qed.

Lemma ideal_fractions_length (rate : nat) :
  length (ideal_fractions rate) = rate.
Proof. unfold ideal_fractions. rewrite length_map, length_seq. reflexivity. Qed.

Lemma tile_length {A : Type} (a : list A) (n : nat) :
  length (tile a n) = length a * n.
Proof.
  unfold tile. induction n as [|n IH]; simpl; [lia|].
  rewrite length_app, IH. lia.
Qed.

Lemma slice_last_length {A : Type} (k : nat) (a : list A) :
  1 <= k -> k <= length a -> length (slice_last k a) = k.
Proof.
  intros H1 H2. unfold slice_last.
  destruct (k =? 0) eqn:E; [apply Nat.eqb_eq in E; lia|].
  rewrite length_skipn. lia.
Qed.



Lemma isin_In (vals : list Qc) (v : Qc) : isin vals v = true <-> In v vals.
Proof.
  unfold isin. rewrite existsb_exists. split.
  - intros [w [Hw E]]. apply Qc_eqb_eq in E. subst w. exact Hw.
  - intros H. exists v. split; [exact H|apply Qc_eqb_refl].
Qed.



Lemma five_hertz_fractions :
  exists fr,
    licor_fractions licor_five_hertz = Ok (5, fr)
    /\ List.Forall2 (fun a b => this a = this b) fr
         (skipn 2 fifths ++ fifths ++ fifths ++ firstn 2 fifths).
Proof.
  eexists. split; [vm_compute; reflexivity|].
  repeat constructor.
Qed.

(** *** More on the resolution *)

Lemma Qc_of_nat_lt (i j : nat) : i < j -> (Qc_of_nat i < Qc_of_nat j)%Qc.
Proof.
  intros H. unfold Qclt, Qc_of_nat, Q2Qc. cbn [this]. rewrite !Qred_correct.
  rewrite <- Zlt_Qlt. lia.
Qed.

Lemma Qcinv_pos (x : Qc) : (0 < x)%Qc -> (0 < / x)%Qc.
Proof.
  unfold Qclt, Qcinv, Q2Qc. cbn [this]. rewrite !Qred_correct.
  apply Qinv_lt_0_compat.
Qed.

Lemma fraction_bounds (i rate : nat) :
  i < rate -> (0 <= Qc_of_nat i / Qc_of_nat rate)%Qc
              /\ (Qc_of_nat i / Qc_of_nat rate < 1)%Qc.
Proof.
  intros H.
  assert (Hr : (0 < Qc_of_nat rate)%Qc) by (apply (Qc_of_nat_lt 0 rate); lia).
  pose proof (Qcinv_pos _ Hr) as Hinv.
  unfold Qcdiv. split.
  - rewrite <- (Qcmult_0_l (/ Qc_of_nat rate)).
    apply Qcmult_le_compat_r.
    + destruct i; [apply Qcle_refl|].
      apply Qclt_le_weak, (Qc_of_nat_lt 0 (S i)). lia.
    + apply Qclt_le_weak, Hinv.
  - rewrite <- (Qcmult_inv_r (Qc_of_nat rate)) by (apply Qc_of_nat_pos; lia).
    apply Qcmult_lt_compat_r; [exact Hinv|]. apply Qc_of_nat_lt, H.
Qed.

Lemma shift_bounds (old f z : Qc) :
  (0 <= f)%Qc -> (f < 1)%Qc -> (0 < z)%Qc ->
  (old <= old + f * z)%Qc /\ (old + f * z < old + 1 * z)%Qc.
Proof.
  intros H0 H1 Hz. split.
  - rewrite <- (Qcplus_0_r old) at 1. apply Qcplus_le_compat.
    + apply Qcle_refl.
    + rewrite <- (Qcmult_0_l z). apply Qcmult_le_compat_r; [exact H0|].
      apply Qclt_le_weak, Hz.
  - apply Qclt_minus_iff.
    replace (old + 1 * z + - (old + f * z))%Qc with ((1 + - f) * z)%Qc by ring.
    rewrite <- (Qcmult_0_l z). apply Qcmult_lt_compat_r; [exact Hz|].
    apply Qclt_minus_iff in H1. exact H1.
Qed.

(** The same computation, however many leading rows there are: a
    slice longer than the array is the whole array. *)
Lemma fractions_of_parts_any_head (A B C mid : list Qc) (rate : nat) :
  interior (unique (A ++ B ++ C)) = mid ->
  filter (isin mid) (A ++ B ++ C) = B ->
  B <> [] -> mid <> [] ->
  length B = rate * length mid ->
  hd 0%Qc mid = hd 0%Qc B -> last mid 0%Qc = last B 0%Qc ->
  Forall (fun v => Qc_eqb (hd 0%Qc B) v = false) A ->
  Forall (fun v => Qc_eqb (last B 0%Qc) v = false) C ->
  1 <= length A ->
  licor_fractions (A ++ B ++ C)
  = Ok (rate,
        skipn (rate - length A) (ideal_fractions rate)
          ++ tile (ideal_fractions rate) (length mid)
          ++ firstn (length C) (ideal_fractions rate)).
Proof.
  intros Hldu Hlda HB Hmid Hlen Hhd Hlast HA HC HA1.
  assert (Hk : length mid <> 0) by (destruct mid; [contradiction|discriminate]).
  assert (Hrate : 1 <= rate).
  { destruct rate; [|lia]. destruct B; [contradiction|]. simpl in Hlen. lia. }
  unfold licor_fractions. cbv zeta. rewrite Hldu, Hlda.
  destruct (length mid =? 0) eqn:E0; [apply Nat.eqb_eq in E0; contradiction|].
  rewrite Hlen, Nat.div_mul by exact Hk.
  destruct (rate =? 0) eqn:E1; [apply Nat.eqb_eq in E1; lia|].
  rewrite (getitem_hd mid 0%Qc Hmid), Hhd. cbn [bind].
  (* the first row of the first interior timestamp *)
  destruct B as [|b0 B']; [contradiction|]. cbn [hd] in *.
  assert (Hstart : getitem (np_where (Qc_eqb b0) (A ++ (b0 :: B') ++ C)) 0
                   = Ok (length A)).
  { unfold np_where. rewrite np_where_from_app.
    rewrite (np_where_from_none _ A 0 HA). simpl.
    rewrite Qc_eqb_refl. reflexivity. }
  rewrite Hstart. cbn [bind].
  rewrite (getlast_last mid 0%Qc Hmid), Hlast. cbn [bind].
  (* the last row of the last interior timestamp *)
  assert (Htail : getlast (np_where (Qc_eqb (last (b0 :: B') 0%Qc))
                             (A ++ (b0 :: B') ++ C))
                  = Ok (length A + length B')).
  { destruct (@exists_last _ (b0 :: B') ltac:(discriminate)) as [B'' [b1 EB]].
    rewrite EB, last_last.
    replace (A ++ (B'' ++ [b1]) ++ C) with ((A ++ B'') ++ b1 :: C)
      by (rewrite <- !app_assoc; reflexivity).
    unfold np_where. rewrite np_where_from_app. simpl.
    rewrite Qc_eqb_refl. rewrite EB, last_last in HC.
    rewrite (np_where_from_none _ C _ HC).
    rewrite getlast_app. f_equal.
    apply (f_equal (@length Qc)) in EB. rewrite !length_app in *.
    simpl in EB. simpl. lia. }
  rewrite Htail. cbn [bind].
  change (Qc_of_nat 0) with 0%Qc. change (Qc_of_nat 1) with 1%Qc.
  rewrite (linspace_ideal rate Hrate).
  f_equal. f_equal. f_equal.
  - unfold slice_last.
    destruct (length A =? 0) eqn:E2; [apply Nat.eqb_eq in E2; lia|].
    rewrite ideal_fractions_length. reflexivity.
  - f_equal. f_equal. rewrite !length_app. simpl. lia.
Qed.

(** An ascending table with an interior row, as its leading rows [A],
    interior rows [B] and trailing rows [C], and what
    [licor_fractions] computes on it. *)
Lemma ascending_table_parts (d : list Qc) :
  StronglySorted Qcle d -> interior_rows d <> [] ->
  exists A B C,
    d = A ++ B ++ C
    /\ interior_rows d = B /\ leading_rows d = A /\ trailing_rows d = C
    /\ B <> [] /\ 1 <= length A /\ 1 <= length C /\ 0 < distinct B
    /\ forall rate,
        length B = rate * distinct B ->
        licor_fractions d
        = Ok (rate,
              skipn (rate - length A) (ideal_fractions rate)
                ++ tile (ideal_fractions rate) (distinct B)
                ++ firstn (length C) (ideal_fractions rate)).
Proof.
  intros Hs Hrows.
  destruct (unique_shape d Hs Hrows) as [mid [Hu [Hmidne [Hnd [Hinc Hmem]]]]].
  assert (Hlohi : (first_time d < last_time d)%Qc).
  { destruct mid as [|v mid']; [contradiction|].
    destruct (proj1 (Hmem v) (or_introl eq_refl)) as [_ Hv].
    unfold is_interior in Hv. apply andb_prop in Hv. destruct Hv as [H1 H2].
    apply Qc_ltb_true in H1, H2. apply (Qclt_trans _ _ _ H1 H2). }
  destruct (sorted_three_parts _ _ d Hlohi Hs) as [A [B [C [Hd [HA [HB HC]]]]]].
  rewrite Forall_forall in HA, HB, HC.
  assert (HinA : forall v, In v A -> In v d)
    by (intros v Hv; rewrite Hd; apply in_or_app; left; exact Hv).
  assert (HinB : forall v, In v B -> In v d)
    by (intros v Hv; rewrite Hd; apply in_or_app; right; apply in_or_app;
        left; exact Hv).
  assert (HinC : forall v, In v C -> In v d)
    by (intros v Hv; rewrite Hd; apply in_or_app; right; apply in_or_app;
        right; exact Hv).
  assert (IA : Forall (fun v => is_interior d v = false) A).
  { apply Forall_forall. intros v Hv. unfold is_interior.
    apply andb_false_intro1, Qc_ltb_false, HA, Hv. }
  assert (IB : Forall (fun v => is_interior d v = true) B).
  { apply Forall_forall. intros v Hv. destruct (HB v Hv) as [H1 H2].
    unfold is_interior. apply andb_true_intro. split; apply Qc_ltb_true;
      assumption. }
  assert (IC : Forall (fun v => is_interior d v = false) C).
  { apply Forall_forall. intros v Hv. unfold is_interior.
    apply andb_false_intro2, Qc_ltb_false, HC, Hv. }
  assert (Erows : interior_rows d = B).
  { unfold interior_rows. rewrite Hd at 2. rewrite !filter_app.
    rewrite (filter_none _ A IA), (filter_all _ B IB), (filter_none _ C IC).
    rewrite app_nil_r. reflexivity. }
  assert (Elead : leading_rows d = A).
  { unfold leading_rows. rewrite Hd at 2. rewrite !filter_app.
    rewrite (filter_all _ A), (filter_none _ B), (filter_none _ C).
    - rewrite !app_nil_r. reflexivity.
    - apply Forall_forall. intros v Hv. apply Qc_eqb_neq. intros E.
      apply (Qclt_not_le _ _ Hlohi). rewrite E. apply HC, Hv.
    - apply Forall_forall. intros v Hv. apply Qc_eqb_neq. intros E.
      destruct (HB v Hv) as [H1 _]. rewrite <- E in H1.
      apply (Qclt_irrefl _ H1).
    - apply Forall_forall. intros v Hv. apply Qc_eqb_eq.
      apply Qcle_antisym; [|apply HA, Hv].
      apply sorted_first_le; [exact Hs|apply HinA, Hv]. }
  assert (Etrail : trailing_rows d = C).
  { unfold trailing_rows. rewrite Hd at 2. rewrite !filter_app.
    rewrite (filter_none _ A), (filter_none _ B), (filter_all _ C).
    - reflexivity.
    - apply Forall_forall. intros v Hv. apply Qc_eqb_eq.
      apply Qcle_antisym; [apply HC, Hv|].
      apply sorted_le_last; [exact Hs|apply HinC, Hv].
    - apply Forall_forall. intros v Hv. apply Qc_eqb_neq. intros E.
      destruct (HB v Hv) as [_ H2]. rewrite <- E in H2.
      apply (Qclt_irrefl _ H2).
    - apply Forall_forall. intros v Hv. apply Qc_eqb_neq. intros E.
      apply (Qclt_not_le _ _ Hlohi). rewrite E. apply HA, Hv. }
  rewrite Erows in Hrows.
  assert (HmemB : forall v, In v mid <-> In v B).
  { intros v. rewrite Hmem. split.
    - intros [Hv Hi]. rewrite Hd in Hv.
      apply in_app_or in Hv. destruct Hv as [Hv|Hv].
      + rewrite Forall_forall in IA. rewrite (IA v Hv) in Hi. discriminate.
      + apply in_app_or in Hv. destruct Hv as [Hv|Hv]; [exact Hv|].
        rewrite Forall_forall in IC. rewrite (IC v Hv) in Hi. discriminate.
    - intros Hv. split; [apply HinB, Hv|].
      rewrite Forall_forall in IB. apply IB, Hv. }
  assert (Ek : length mid = distinct B).
  { unfold distinct. apply NoDup_same_length.
    - exact Hnd.
    - apply NoDup_nodup.
    - intros v. rewrite nodup_In. apply HmemB. }
  assert (HsB : StronglySorted Qcle B).
  { rewrite Hd in Hs. apply StronglySorted_app_r in Hs.
    apply StronglySorted_app_l in Hs. exact Hs. }
  destruct (same_ends mid B Hinc HsB HmemB Hmidne) as [Ehd Elast].
  assert (Eldu : interior (unique d) = mid).
  { rewrite Hu. unfold interior. simpl. apply removelast_last. }
  assert (Elda : filter (isin mid) d = B).
  { rewrite <- Erows. unfold interior_rows. apply filter_ext_in.
    intros v Hv. apply bool_eq_iff. rewrite isin_In, Hmem. tauto. }
  assert (HhdB : In (hd 0%Qc B) B)
    by (destruct B; [contradiction|left; reflexivity]).
  assert (HlastB : In (last B 0%Qc) B) by (apply last_In, Hrows).
  assert (NA : Forall (fun v => Qc_eqb (hd 0%Qc B) v = false) A).
  { apply Forall_forall. intros v Hv. apply Qc_eqb_neq. intros E.
    destruct (HB _ HhdB) as [H1 _]. rewrite E in H1.
    apply (Qclt_not_le _ _ H1). apply HA, Hv. }
  assert (NC : Forall (fun v => Qc_eqb (last B 0%Qc) v = false) C).
  { apply Forall_forall. intros v Hv. apply Qc_eqb_neq. intros E.
    destruct (HB _ HlastB) as [_ H2]. rewrite E in H2.
    apply (Qclt_not_le _ _ H2). apply HC, Hv. }
  assert (HA1 : 1 <= length A).
  { destruct A as [|a A']; [|simpl; lia]. exfalso.
    destruct B as [|b B']; [contradiction|].
    destruct (HB b (or_introl eq_refl)) as [H1 _].
    rewrite Hd in H1. simpl in H1. apply (Qclt_irrefl _ H1). }
  assert (HC1 : 1 <= length C).
  { destruct C as [|c C']; [|simpl; lia]. exfalso.
    assert (Hl : In (last_time d) (A ++ B ++ [])).
    { rewrite <- Hd. apply last_In. intros E. rewrite E in Hd.
      apply (f_equal (@length Qc)) in Hd. rewrite length_app in Hd.
      simpl in Hd. lia. }
    rewrite app_nil_r in Hl. apply in_app_or in Hl.
    destruct Hl as [Hl|Hl].
    - apply (Qclt_not_le _ _ Hlohi). apply HA, Hl.
    - destruct (HB _ Hl) as [_ H2]. apply (Qclt_irrefl _ H2). }
  assert (Hk : 0 < length mid) by (destruct mid; [contradiction|simpl; lia]).
  exists A, B, C. rewrite <- Ek.
  repeat split; auto.
  intros rate Hlen. rewrite Hd at 1. apply fractions_of_parts_any_head; auto.
  - rewrite <- Hd. exact Eldu.
  - rewrite <- Hd. exact Elda.
Qed.

Lemma unique_length_distinct (d : list Qc) : length (unique d) = distinct d.
Proof.
  unfold distinct. apply NoDup_same_length.
  - apply unique_NoDup.
  - apply NoDup_nodup.
  - intros v. rewrite nodup_In. apply unique_In.
Qed.

Lemma interior_short {A : Type} (l : list A) : length l < 3 -> interior l = [].
Proof.
  destruct l as [|a [|b [|c l]]]; simpl; intros H; try reflexivity. lia.
Qed.

(** X14: [get_licor_resolution] needs three distinct timestamps: on a
    table with fewer, sorted or not and the empty table included, there
    is no interior timestamp and the rate is a division by zero. *)
Theorem resolution_needs_three_timestamps (d : list Qc) :
  distinct d < 3 ->
  licor_fractions d = Raise ZeroDivisionError
  /\ get_licor_resolution d = Raise ZeroDivisionError.
Proof.
  intros H. rewrite <- unique_length_distinct in H.
  assert (E : licor_fractions d = Raise ZeroDivisionError).
  { unfold licor_fractions. rewrite (interior_short _ H). reflexivity. }
  split; [exact E|]. unfold get_licor_resolution. rewrite E. reflexivity.
Qed.

Lemma resolution_needs_three_timestamps_witness :
  get_licor_resolution licor_two_seconds = Raise ZeroDivisionError.
Proof.
  apply (resolution_needs_three_timestamps licor_two_seconds).
  vm_compute. lia.
Defined.








Lemma nth_error_combine {A B : Type} (l : list A) (l' : list B) :
  forall k a b,
    nth_error (combine l l') k = Some (a, b) ->
    nth_error l k = Some a /\ nth_error l' k = Some b.
Proof.
  revert l'. induction l as [|x l IH]; intros [|y l'] [|k] a b H;
    simpl in H; try discriminate.
  - inversion H. auto.
  - simpl. apply IH, H.
Qed.

Lemma In_tile {A : Type} (a : list A) (n : nat) (x : A) :
  In x (tile a n) -> In x a.
Proof.
  unfold tile. induction n as [|n IH]; simpl; [intros []|].
  intros H. apply in_app_or in H. destruct H; auto.
Qed.

Lemma In_ideal (rate : nat) (f : Qc) :
  In f (ideal_fractions rate) -> (0 <= f)%Qc /\ (f < 1)%Qc.
Proof.
  unfold ideal_fractions. intros H. apply in_map_iff in H.
  destruct H as [i [<- Hi]]. apply in_seq in Hi. apply fraction_bounds. lia.
Qed.

(** X17: the correction moves no timestamp back and none by a second
    or more: for an ascending table whose interior rows number [rate]
    times their distinct timestamps and whose first and last timestamp
    have at most [rate] rows, [get_licor_resolution] returns a column
    of the same length, and each new value is at least the old one and
    less than the old one plus one second (1/86400 of a day). *)
Theorem correction_is_within_the_second (d : list Qc) (rate : nat) :
  StronglySorted Qcle d ->
  interior_rows d <> [] ->
  length (interior_rows d) = rate * distinct (interior_rows d) ->
  length (leading_rows d) <= rate ->
  length (trailing_rows d) <= rate ->
  exists out,
    get_licor_resolution d = Ok out
    /\ length out = length d
    /\ forall k old new,
        nth_error d k = Some old -> nth_error out k = Some new ->
        (old <= new)%Qc /\ (new < old + 1 / seconds_per_day)%Qc.
Proof.
  intros Hs Hrows Hlen Hlead Htrail.
  destruct (ascending_table_parts d Hs Hrows)
    as [A [B [C [Hd [EB [EA [EC [HB [HA1 [HC1 [Hk Hfr]]]]]]]]]]].
  rewrite EB in *. rewrite EA in *. rewrite EC in *.
  set (fr := skipn (rate - length A) (ideal_fractions rate)
               ++ tile (ideal_fractions rate) (distinct B)
               ++ firstn (length C) (ideal_fractions rate)).
  assert (Lfr : length fr = length d).
  { unfold fr. rewrite !length_app, length_skipn, length_firstn, tile_length,
      ideal_fractions_length.
    replace (length d) with (length A + (length B + length C))
      by (rewrite Hd, !length_app; reflexivity).
    lia. }
  assert (Hin : forall f, In f fr -> (0 <= f)%Qc /\ (f < 1)%Qc).
  { intros f Hf. apply (In_ideal rate). unfold fr in Hf.
    apply in_app_or in Hf. destruct Hf as [Hf|Hf].
    - rewrite <- (firstn_skipn (rate - length A) (ideal_fractions rate)).
      apply in_or_app. right. exact Hf.
    - apply in_app_or in Hf. destruct Hf as [Hf|Hf].
      + apply (In_tile _ _ _ Hf).
      + rewrite <- (firstn_skipn (length C) (ideal_fractions rate)).
        apply in_or_app. left. exact Hf. }
  exists (map (fun df => (fst df + snd df / seconds_per_day)%Qc)
            (combine d fr)).
  split; [|split].
  - unfold get_licor_resolution. rewrite (Hfr rate Hlen). cbn [bind snd].
    fold fr. rewrite Lfr, Nat.eqb_refl. reflexivity.
  - rewrite length_map, length_combine, Lfr. apply Nat.min_id.
  - intros k old new Hold Hnew. rewrite nth_error_map in Hnew.
    destruct (nth_error (combine d fr) k) as [[o f]|] eqn:E; [|discriminate].
    simpl in Hnew. inversion Hnew; subst new.
    destruct (nth_error_combine _ _ _ _ _ E) as [Ho Hf].
    assert (o = old) by congruence. subst o.
    destruct (Hin f (nth_error_In _ _ Hf)) as [H0 H1].
    unfold Qcdiv. apply shift_bounds; auto.
    apply Qcinv_pos. reflexivity.
Qed.

Lemma correction_is_within_the_second_witness :
  exists out,
    get_licor_resolution licor_five_hertz = Ok out
    /\ length out = length licor_five_hertz
    /\ forall k old new,
        nth_error licor_five_hertz k = Some old ->
        nth_error out k = Some new ->
        (old <= new)%Qc /\ (new < old + 1 / seconds_per_day)%Qc.
Proof.
  apply (correction_is_within_the_second licor_five_hertz 5).
  - repeat constructor; unfold Qcle; simpl; discriminate.
  - vm_compute. discriminate.
  - vm_compute. reflexivity.
  - vm_compute. lia.
  - vm_compute. lia.
Defined.

(** *** More on the segmenter *)

Lemma tagged_iff_reached_some (t : Qc) (dbs : list dbs_row) :
  isnan (tag_after t dbs NaN)
  = negb (existsb (fun row => Qc_leb (dbs_datenum row) t) dbs).
Proof.
  destruct (tag_after_spec t dbs NaN)
    as [[k [row [[Hk [Hle _]] Htag]]]|[Hall Htag]]; rewrite Htag; simpl;
    symmetry.
  - apply negb_false_iff, existsb_exists. exists row. split.
    + apply nth_error_In with (n := k). exact Hk.
    + apply Qc_leb_true, Hle.
  - apply negb_true_iff. destruct (existsb _ dbs) eqn:E; [|reflexivity].
    apply existsb_exists in E. destruct E as [row [Hin Hle]].
    apply Qc_leb_true in Hle. exfalso.
    apply (Qclt_not_le _ _ (Hall row Hin) Hle).
Qed.

Lemma segment_datenums (licor : list licor_row) (dbs : list dbs_row) :
  map datenum
    (filter (fun r => negb (isnan (dbs_ix r)))
       (map (fun r => mkLicor (datenum r) (tag_after (datenum r) dbs NaN))
          licor))
  = filter (fun t => existsb (fun row => Qc_leb (dbs_datenum row) t) dbs)
      (map datenum licor).
Proof.
  induction licor as [|r licor IH]; [reflexivity|].
  cbn [map filter]. cbn [dbs_ix datenum].
  rewrite tagged_iff_reached_some, negb_involutive.
  destruct (existsb _ dbs); [cbn [map datenum]; f_equal|]; exact IH.
Qed.

(** X18: sorted or not, the manifest decides which rows stay by its
    earliest time: [get_licor_samples] keeps, in their order, exactly
    the rows that have reached the time of at least one manifest row,
    and with an empty manifest it keeps none. *)
Theorem segmenter_keeps_rows_that_reached_a_manifest_time
  (licor : list licor_row) (dbs : list dbs_row) :
  NoDup (map index dbs) ->
  exists out,
    get_licor_samples licor dbs = Ok out
    /\ map datenum out
       = filter (fun t => existsb (fun row => Qc_leb (dbs_datenum row) t) dbs)
           (map datenum licor)
    /\ (dbs = [] -> out = []).
Proof.
  intros Hnd. eexists. split; [apply segment_rows, Hnd|].
  split; [apply segment_datenums|].
  intros ->. induction licor as [|r licor IH]; [reflexivity|exact IH].
Qed.

Lemma segmenter_keeps_rows_that_reached_a_manifest_time_witness :
  exists out,
    get_licor_samples licor_seven (rev dbs_three) = Ok out
    /\ map datenum out = map Qc_of_nat [2; 3; 4; 5; 6].
Proof.
  destruct (segmenter_keeps_rows_that_reached_a_manifest_time licor_seven
              (rev dbs_three)) as [out [H1 [H2 _]]].
  - repeat constructor; simpl; intuition discriminate.
  - exists out. split; [exact H1|]. rewrite H2. reflexivity.
Defined.

(** X19: the tags depend on the timestamps only.  Tags that the table
    brings along are overwritten, so two tables with the same
    timestamps give the same result, and running [get_licor_samples]
    on its own result with the same manifest changes nothing. *)
Theorem segmenter_is_idempotent (licor : list licor_row) (dbs : list dbs_row)
  (out : list licor_row) :
  NoDup (map index dbs) ->
  get_licor_samples licor dbs = Ok out ->
  get_licor_samples out dbs = Ok out
  /\ forall licor',
      map datenum licor' = map datenum licor ->
      get_licor_samples licor' dbs = Ok out.
Proof.
  intros Hnd H. rewrite (segment_rows licor dbs Hnd) in H.
  inversion H as [Hout]. clear H. split.
  - rewrite (segment_rows _ dbs Hnd). f_equal.
    subst out. set (keep := fun r => negb (isnan (dbs_ix r))).
    set (tag := fun r => mkLicor (datenum r) (tag_after (datenum r) dbs NaN)).
    assert (Htag : forall r, In r (filter keep (map tag licor)) ->
                             tag r = r /\ keep r = true).
    { intros r Hr. apply filter_In in Hr. destruct Hr as [Hr Hk].
      apply in_map_iff in Hr. destruct Hr as [r0 [<- _]].
      split; [reflexivity|exact Hk]. }
    induction (filter keep (map tag licor)) as [|r l IH]; [reflexivity|].
    simpl. destruct (Htag r (or_introl eq_refl)) as [E1 E2].
    rewrite E1, E2. f_equal. apply IH. intros r' Hr'. apply Htag.
    right. exact Hr'.
  - intros licor' Hsame. rewrite (segment_rows licor' dbs Hnd). f_equal.
    f_equal.
    rewrite <- (map_map datenum
                  (fun t => mkLicor t (tag_after t dbs NaN)) licor'),
      <- (map_map datenum
            (fun t => mkLicor t (tag_after t dbs NaN)) licor), Hsame.
    reflexivity.
Qed.

Lemma segmenter_is_idempotent_witness :
  get_licor_samples licor_seven_tagged dbs_three = Ok licor_seven_tagged.
Proof.
  refine (proj1 (segmenter_is_idempotent licor_seven dbs_three
                   licor_seven_tagged _ _)).
  - repeat constructor; simpl; intuition discriminate.
  - vm_compute. reflexivity.
Defined.

Lemma Qc_of_Z_inj (a b : Z) : Qc_of_Z a = Qc_of_Z b -> a = b.
Proof.
  unfold Qc_of_Z. intros H. apply Q2Qc_eq_iff in H.
  unfold Qeq in H. simpl in H. lia.
Qed.

Lemma index_position (dbs : list dbs_row) (k k' : nat) (row row' : dbs_row) :
  NoDup (map index dbs) ->
  nth_error dbs k = Some row -> nth_error dbs k' = Some row' ->
  index row = index row' -> k = k'.
Proof.
  intros Hnd Hk Hk' E.
  apply (proj1 (NoDup_nth_error (map index dbs)) Hnd).
  - rewrite length_map. apply nth_error_Some. congruence.
  - rewrite !nth_error_map, Hk, Hk'. simpl. congruence.
Qed.

(** X20: the tags follow the time: of two rows that
    [get_licor_samples] keeps, the later one is tagged with the same
    manifest row as the earlier one or with a row further down the
    manifest, never with one further up. *)
Theorem tags_follow_time (licor : list licor_row) (dbs : list dbs_row)
  (out : list licor_row) :
  NoDup (map index dbs) ->
  get_licor_samples licor dbs = Ok out ->
  forall r1 r2 k1 k2 row1 row2,
    In r1 out -> In r2 out -> (datenum r1 <= datenum r2)%Qc ->
    nth_error dbs k1 = Some row1 -> dbs_ix r1 = Fin (Qc_of_Z (index row1)) ->
    nth_error dbs k2 = Some row2 -> dbs_ix r2 = Fin (Qc_of_Z (index row2)) ->
    k1 <= k2.
Proof.
  intros Hnd H r1 r2 k1 k2 row1 row2 Hr1 Hr2 Hle Hk1 Ht1 Hk2 Ht2.
  rewrite (segment_rows licor dbs Hnd) in H. inversion H as [Hout]. clear H.
  assert (Hrecent : forall r k row,
             In r out -> nth_error dbs k = Some row ->
             dbs_ix r = Fin (Qc_of_Z (index row)) ->
             most_recent (datenum r) dbs k row).
  { intros r k row Hr Hk Ht. rewrite <- Hout in Hr.
    apply filter_In in Hr. destruct Hr as [Hr Hnan].
    apply in_map_iff in Hr. destruct Hr as [r0 [<- _]].
    cbn [dbs_ix datenum] in *.
    destruct (tag_after_spec (datenum r0) dbs NaN)
      as [[k' [row' [Hmr E]]]|[_ E]].
    - rewrite E in Ht.
      assert (Hq : Qc_of_Z (index row') = Qc_of_Z (index row)).
      { exact (f_equal (fun x => match x with
                                 | Fin q => q
                                 | NaN => Qc_of_Z (index row)
                                 end) Ht). }
      apply Qc_of_Z_inj in Hq.
      pose proof Hmr as [Hk' _].
      assert (k' = k) by (apply (index_position dbs k' k row' row); auto).
      subst k'. assert (row' = row) by congruence. subst row'. exact Hmr.
    - rewrite E in Hnan. discriminate. }
  destruct (Hrecent r1 k1 row1 Hr1 Hk1 Ht1) as [_ [Hle1 _]].
  destruct (Hrecent r2 k2 row2 Hr2 Hk2 Ht2) as [_ [_ Hlater2]].
  destruct (Nat.le_gt_cases k1 k2) as [Hok|Hgt]; [exact Hok|]. exfalso.
  pose proof (Hlater2 k1 row1 Hgt Hk1) as Hlt.
  apply (Qclt_not_le _ _ Hlt).
  apply Qcle_trans with (y := datenum r1); assumption.
Qed.

Lemma tags_follow_time_witness :
  get_licor_samples licor_seven dbs_three = Ok licor_seven_tagged
  /\ In (mkLicor (Qc_of_nat 3) (Fin (Qc_of_Z 10))) licor_seven_tagged
  /\ In (mkLicor (Qc_of_nat 5) (Fin (Qc_of_Z 12))) licor_seven_tagged
  /\ 0 <= 2.
Proof.
  assert (H : get_licor_samples licor_seven dbs_three = Ok licor_seven_tagged)
    by (vm_compute; reflexivity).
  assert (H1 : In (mkLicor (Qc_of_nat 3) (Fin (Qc_of_Z 10)))
                 licor_seven_tagged) by (right; left; reflexivity).
  assert (H2 : In (mkLicor (Qc_of_nat 5) (Fin (Qc_of_Z 12)))
                 licor_seven_tagged)
    by (right; right; right; left; reflexivity).
  repeat split; try assumption.
  apply (tags_follow_time licor_seven dbs_three licor_seven_tagged)
    with (r1 := mkLicor (Qc_of_nat 3) (Fin (Qc_of_Z 10)))
         (r2 := mkLicor (Qc_of_nat 5) (Fin (Qc_of_Z 12)))
         (row1 := mkDbs 10 (Qc_of_nat 2)) (row2 := mkDbs 12 (Qc_of_nat 5));
    try assumption; try reflexivity.
  - repeat constructor; simpl; intuition discriminate.
  - unfold Qcle; simpl; discriminate.
Defined.

End InfraredFacts.
